(** * Deepr runtime: the query parser ([packages/runtime/src/parser.js])

    A shallow embedding of [parseQuery] and its helpers, and the properties
    of the parser stated over it. *)

From Stdlib Require Import List String Ascii Bool Arith ZArith Lia DecimalString.
Import ListNotations.

Local Open Scope string_scope.
Local Open Scope list_scope.

(** ** JavaScript values

    The queries handed to the parser are plain data: literals, arrays and
    object literals.  An object is represented by its own enumerable
    properties in the order [Object.entries] lists them, an array by its
    elements (arrays have no holes here).  Numbers are never inspected by
    the parser; their payload is only carried along (in [params] and in
    error reports).  Strings are sequences of characters; the three
    characters the parser looks at (['='], ['>'], ['?']) are ASCII. *)

#[local] Unset Elimination Schemes.

Inductive value : Type :=
| VUndefined
| VNull
| VBool (b : bool)
| VNumber (n : Z)
| VString (s : string)
| VArray (items : list value)
| VObject (entries : list (string * value)).

(** Nested induction over values: the elements of an array and the property
    values of an object satisfy the predicate. *)

Section value_induction.
Variable P : value -> Prop.
Hypothesis Hundefined : P VUndefined.
Hypothesis Hnull : P VNull.
Hypothesis Hbool : forall b, P (VBool b).
Hypothesis Hnumber : forall n, P (VNumber n).
Hypothesis Hstring : forall s, P (VString s).
Hypothesis Harray : forall items, Forall P items -> P (VArray items).
Hypothesis Hobject :
  forall entries, Forall (fun kv => P (snd kv)) entries -> P (VObject entries).

Fixpoint value_nested_ind (v : value) : P v :=
  match v with
  | VUndefined => Hundefined
  | VNull => Hnull
  | VBool b => Hbool b
  | VNumber n => Hnumber n
  | VString s => Hstring s
  | VArray items =>
      Harray items
        ((fix items_ind (l : list value) : Forall P l :=
            match l with
            | [] => @Forall_nil value P
            | x :: l' => @Forall_cons value P x l' (value_nested_ind x) (items_ind l')
            end) items)
  | VObject entries =>
      Hobject entries
        ((fix entries_ind (l : list (string * value))
            : Forall (fun kv => P (snd kv)) l :=
            match l with
            | [] => @Forall_nil _ (fun kv => P (snd kv))
            | kv :: l' =>
                @Forall_cons _ (fun kv => P (snd kv)) kv l'
                  (value_nested_ind (snd kv)) (entries_ind l')
            end) entries)
  end.
End value_induction.

(** ** Errors

    Every [throw new Error(...)] of the parser, one constructor per message. *)

Inductive error : Type :=
| MissingQuery                       (* 'query' parameter is missing *)
| InvalidArraySyntax                 (* An array should contain exactly one item *)
| InvalidQueryShape (query : value)  (* Invalid query found: <JSON of query> *)
| InvalidKeySyntax (key : string)    (* Invalid key found: '<key>' *)
| MultipleEmptyTargets               (* Multiple empty targets found at the same level *)
| ConflictingTargets.                (* Empty and non-empty targets found at the same level *)

Inductive result (A : Type) : Type :=
| Ok (a : A)
| Err (e : error).
Arguments Ok {A} a.
Arguments Err {A} e.

Definition bind {A B} (r : result A) (k : A -> result B) : result B :=
  match r with
  | Ok a => k a
  | Err e => Err e
  end.

Definition rmap {A B} (f : A -> B) (r : result A) : result B :=
  match r with
  | Ok a => Ok (f a)
  | Err e => Err e
  end.

Notation "'let*' x ':=' r 'in' k" := (bind r (fun x => k))
  (at level 10, x pattern, r at level 100, k at level 200).

(** ** Expressions

    The object built by [_parseQuery].  A property that the code leaves
    unset ([undefined]) is [false] for the two flags and [None] for the
    others.  [nestedExpressions] holds the own properties of the object, in
    the order they were first assigned. *)

Inductive Expression : Type := mkExpression {
  sourceKey : string;
  isOptional : bool;
  useCollectionElements : bool;
  params : option value;
  nextExpression : option Expression;
  nestedExpressions : option (list (string * Expression)) }.

Definition set_useCollectionElements (e : Expression) : Expression :=
  mkExpression (sourceKey e) (isOptional e) true (params e)
    (nextExpression e) (nestedExpressions e).

Definition set_params (v : value) (e : Expression) : Expression :=
  mkExpression (sourceKey e) (isOptional e) (useCollectionElements e) (Some v)
    (nextExpression e) (nestedExpressions e).

Definition set_nextExpression (n : Expression) (e : Expression) : Expression :=
  mkExpression (sourceKey e) (isOptional e) (useCollectionElements e) (params e)
    (Some n) (nestedExpressions e).

Definition set_nestedExpressions (o : list (string * Expression)) (e : Expression)
  : Expression :=
  mkExpression (sourceKey e) (isOptional e) (useCollectionElements e) (params e)
    (nextExpression e) (Some o).

(** ** Property assignment and lookup on [nestedExpressions]

    [nestedExpressions[targetKey] = subexpression] on an object created by
    [{}]: an existing own property keeps its place and gets the new value, a
    new one is added after the others.  The name [__proto__] is not an
    ordinary property of such an object: the assignment reaches the setter
    inherited from [Object.prototype], which replaces the prototype of
    [nestedExpressions] and creates no own property. *)

Fixpoint assign_own {A} (o : list (string * A)) (k : string) (x : A)
  : list (string * A) :=
  match o with
  | [] => [(k, x)]
  | (k', y) :: o' =>
      if String.eqb k' k then (k', x) :: o' else (k', y) :: assign_own o' k x
  end.

Definition assign {A} (o : list (string * A)) (k : string) (x : A)
  : list (string * A) :=
  if String.eqb k "__proto__" then o else assign_own o k x.

(** The own property [k] of an object, if it has one. *)
Fixpoint own {A} (o : list (string * A)) (k : string) : option A :=
  match o with
  | [] => None
  | (k', y) :: o' => if String.eqb k' k then Some y else own o' k
  end.

#[local] Set Elimination Schemes.

(** ** Keys *)

(** [key.split('=>')]: the pieces of [key] between the occurrences of the
    separator, found from left to right. *)
Fixpoint split_arrow (key : string) : list string :=
  match key with
  | EmptyString => [""]
  | String "=" (String ">" rest) => "" :: split_arrow rest
  | String c rest =>
      match split_arrow rest with
      | part :: parts => String c part :: parts
      | [] => [String c ""]
      end
  end.

(** [s.endsWith(t)] *)
Definition endsWith (s t : string) : bool :=
  Nat.leb (String.length t) (String.length s)
  && String.eqb (substring (String.length s - String.length t) (String.length t) s) t.

(** [s.slice(0, -1)] *)
Definition slice_0_m1 (s : string) : string :=
  substring 0 (String.length s - 1) s.

Record ParsedKey : Type := mkParsedKey {
  key_sourceKey : string;
  key_targetKey : string;
  key_isOptional : bool }.

Definition parseSourceKey (sourceKey : string) : string * bool :=
  if endsWith sourceKey "?" then (slice_0_m1 sourceKey, true)
  else (sourceKey, false).

Definition parseKey (key : string) : result ParsedKey :=
  match split_arrow key with
  | [part0] =>
      let '(sourceKey, isOptional) := parseSourceKey part0 in
      Ok (mkParsedKey sourceKey sourceKey isOptional)
  | [part0; part1] =>
      let '(sourceKey, isOptional) := parseSourceKey part0 in
      Ok (mkParsedKey sourceKey part1 isOptional)
  | _ => Err (InvalidKeySyntax key)
  end.

(** ** Key matchers

    A matcher of [ignoreKeys] / [acceptKeys] is a string, compared with
    [===], or an object with a [test] method (a regular expression), given
    here by the answer of [test] on each key.  A matcher whose answer
    depends on the calls made before (a regular expression with the flag
    [g] or [y]) is outside this model. *)

Inductive pattern : Type :=
| PString (s : string)
| PRegExp (test : string -> bool).

Definition testKey (key : string) (patterns : list pattern) : bool :=
  existsb (fun pattern =>
             match pattern with
             | PString s => String.eqb s key
             | PRegExp test => test key
             end) patterns.

(** ** Built-in keys

    [_addKeys] walks the prototype chain of an object and reads the own
    property names of each link.  The three objects it is applied to belong
    to the JavaScript engine; an object is therefore given here by what
    [_addKeys] reads from it: the list of the own property names of the
    object, of its prototype, and so on up to the end of the chain. *)

Definition chain : Type := list (list string).

Record Host : Type := mkHost {
  host_obj : chain;     (* const obj = new Obj() *)
  host_func : chain;    (* const func = function () {} *)
  host_Obj : chain }.   (* class Obj {} *)

(** [array.indexOf(key) !== -1] *)
Definition includes (array : list string) (key : string) : bool :=
  existsb (String.eqb key) array.

Definition addKey (array : list string) (key : string) : list string :=
  if negb (String.eqb key "name" || String.eqb key "length" || includes array key)
  then array ++ [key]
  else array.

Fixpoint _addKeys (array : list string) (object : chain) : list string :=
  match object with
  | [] => array
  | names :: prototype => _addKeys (fold_left addKey names array) prototype
  end.

(** ** Configuration *)

(** The value of an [ignoreKeys] / [acceptKeys] option: one matcher or an
    array of matchers. *)
Inductive matchers : Type :=
| OneMatcher (p : pattern)
| ManyMatchers (ps : list pattern).

(** The second argument of [parseQuery]; [None] is a property left out. *)
Record Options : Type := mkOptions {
  opt_ignoreKeys : option matchers;
  opt_acceptKeys : option matchers;
  opt_ignoreBuiltInKeys : option bool }.

Definition noOptions : Options := mkOptions None None None.

(** The third argument of [_parseQuery]. *)
Record Config : Type := mkConfig {
  ignoreKeys : list pattern;
  acceptKeys : list pattern;
  ignoreBuiltInKeys : bool }.

(** The second argument of [_parseQuery]: [{sourceKey = '', isOptional}]. *)
Record Context : Type := mkContext {
  ctx_sourceKey : option string;
  ctx_isOptional : bool }.

Definition rootContext : Context := mkContext None false.

(** Lines 49-55: an option that is not an array becomes a one-element
    array. *)
Definition toArray (m : option matchers) : list pattern :=
  match m with
  | None => []
  | Some (OneMatcher p) => [p]
  | Some (ManyMatchers ps) => ps
  end.

(** The configuration [parseQuery] hands to [_parseQuery] (lines 49-57). *)
Definition configOf (options : Options) : Config :=
  mkConfig (toArray (opt_ignoreKeys options)) (toArray (opt_acceptKeys options))
    (match opt_ignoreBuiltInKeys options with
     | Some b => b
     | None => true
     end).

(** [const expression = {sourceKey, isOptional}] (line 69). *)
Definition newExpression (ctx : Context) : Expression :=
  mkExpression
    (match ctx_sourceKey ctx with Some s => s | None => "" end)
    (ctx_isOptional ctx) false None None None.

Section Parser.
Variable host : Host.

(** The array built on the first call of [getBuiltInKeys]. *)
Definition builtInKeys : list string :=
  _addKeys (_addKeys (_addKeys [] (host_obj host)) (host_func host)) (host_Obj host).

(** [getBuiltInKeys] with the module variable [_builtInKeys] passed in and
    out: it is filled on the first call and only read afterwards. *)
Definition getBuiltInKeys (_builtInKeys : option (list string))
  : list string * option (list string) :=
  match _builtInKeys with
  | None => (builtInKeys, Some builtInKeys)
  | Some keys => (keys, Some keys)
  end.

(** ** The loop over the entries of a query *)

(** The variables the loop of [_parseQuery] updates. *)
Record Level : Type := mkLevel {
  lv_expression : Expression;
  lv_nestedExpressions : option (list (string * Expression));
  lv_nextExpression : option Expression }.

(** Where a subexpression goes (lines 112-122): under its target key, or
    in [nextExpression] when the target key is empty. *)
Definition place (targetKey : string) (subexpression : Expression) (st : Level)
  : result Level :=
  if negb (String.eqb targetKey "") then
    let nestedExpressions :=
      match lv_nestedExpressions st with
      | None => []
      | Some o => o
      end in
    Ok (mkLevel (lv_expression st)
          (Some (assign nestedExpressions targetKey subexpression))
          (lv_nextExpression st))
  else
    match lv_nextExpression st with
    | Some _ => Err MultipleEmptyTargets
    | None => Ok (mkLevel (lv_expression st) (lv_nestedExpressions st)
                    (Some subexpression))
    end.

(** One round of the loop (lines 91-122); [recur] is [_parseQuery value].
    The array returned by [getBuiltInKeys ()] is [builtInKeys] whatever
    the calls made before (lemma [getBuiltInKeys_memo]). *)
Definition processEntry (cfg : Config)
    (recur : Context -> Config -> result Expression)
    (key : string) (value : value) (st : Level) : result Level :=
  if String.eqb key "()" then
    Ok (mkLevel (set_params value (lv_expression st))
          (lv_nestedExpressions st) (lv_nextExpression st))
  else
    let* pk := parseKey key in
    if ignoreBuiltInKeys cfg && includes builtInKeys (key_sourceKey pk) then Ok st
    else if testKey (key_sourceKey pk) (ignoreKeys cfg)
            && negb (testKey (key_sourceKey pk) (acceptKeys cfg)) then Ok st
    else
      let* subexpression :=
        recur (mkContext (Some (key_sourceKey pk)) (key_isOptional pk)) cfg in
      place (key_targetKey pk) subexpression st.

(** After the loop (lines 125-136). *)
Definition finishLevel (st : Level) : result Expression :=
  match lv_nextExpression st with
  | Some nextExpression =>
      match lv_nestedExpressions st with
      | Some _ => Err ConflictingTargets
      | None => Ok (set_nextExpression nextExpression (lv_expression st))
      end
  | None =>
      match lv_nestedExpressions st with
      | Some nestedExpressions =>
          Ok (set_nestedExpressions nestedExpressions (lv_expression st))
      | None => Ok (lv_expression st)
      end
  end.

(** The name of the property holding the element [index] of an array. *)
Definition index_key (index : nat) : string :=
  NilEmpty.string_of_uint (Nat.to_uint index).

(** ** [_parseQuery]

    [typeof query === 'object'] holds of a non-null value for object
    literals and for arrays; [Object.entries] of an array lists its
    elements under their indices. *)
Fixpoint _parseQuery (query : value) (ctx : Context) (cfg : Config) {struct query}
  : result Expression :=
  let expression := newExpression ctx in
  let body := fun (expression : Expression) (query : value) =>
    match query with
    | VBool true => Ok expression
    | VObject entries =>
        let* st :=
          (fix loop (entries : list (string * value)) (st : Level) {struct entries}
             : result Level :=
             match entries with
             | [] => Ok st
             | (key, value) :: rest =>
                 let* st' := processEntry cfg (_parseQuery value) key value st in
                 loop rest st'
             end) entries (mkLevel expression None None) in
        finishLevel st
    | VArray items =>
        let* st :=
          (fix loop (index : nat) (items : list value) (st : Level) {struct items}
             : result Level :=
             match items with
             | [] => Ok st
             | value :: rest =>
                 let* st' :=
                   processEntry cfg (_parseQuery value) (index_key index) value st in
                 loop (S index) rest st'
             end) 0 items (mkLevel expression None None) in
        finishLevel st
    | _ => Err (InvalidQueryShape query)
    end in
  match query with
  | VUndefined => Err MissingQuery
  | VArray [item] => body (set_useCollectionElements expression) item
  | VArray _ => Err InvalidArraySyntax
  | _ => body expression query
  end.

(** ** [parseQuery] *)

Definition parseQuery (query : value) (options : Options) : result Expression :=
  match query with
  | VUndefined => Err MissingQuery
  | _ =>
      _parseQuery query rootContext (configOf options)
  end.

End Parser.

(** ** The levels of a query

    The definitions below name the parts of [_parseQuery] that the
    statements speak about: the loop over the entries of one level, the
    entries an array or an object has, the keys that reach the recursive
    call. *)

Section Levels.
Variable host : Host.
Variable cfg : Config.

(** The loop of lines 90-123, from the state [st]. *)
Fixpoint parseEntries (entries : list (string * value)) (st : Level)
  : result Level :=
  match entries with
  | [] => Ok st
  | (key, value) :: rest =>
      let* st' := processEntry host cfg (_parseQuery host value) key value st in
      parseEntries rest st'
  end.

(** [Object.entries] of an array whose first element has index [index]. *)
Fixpoint arrayEntries (index : nat) (items : list value) : list (string * value) :=
  match items with
  | [] => []
  | value :: rest => (index_key index, value) :: arrayEntries (S index) rest
  end.

(** [Object.entries(query)] for the values that pass the test of line 83. *)
Definition entriesOf (query : value) : option (list (string * value)) :=
  match query with
  | VObject entries => Some entries
  | VArray items => Some (arrayEntries 0 items)
  | _ => None
  end.

(** Lines 79-136: what [_parseQuery] does with the query once a
    one-element array has been unwrapped. *)
Definition parseBody (expression : Expression) (query : value)
  : result Expression :=
  match query with
  | VBool true => Ok expression
  | _ =>
      match entriesOf query with
      | Some entries =>
          let* st := parseEntries entries (mkLevel expression None None) in
          finishLevel st
      | None => Err (InvalidQueryShape query)
      end
  end.

(** The expression after line 77. *)
Definition levelExpression (query : value) (ctx : Context) : Expression :=
  match query with
  | VArray [_] => set_useCollectionElements (newExpression ctx)
  | _ => newExpression ctx
  end.

(** The entries the loop runs over, when [_parseQuery query] gets to the
    loop. *)
Definition levelEntries (query : value) : option (list (string * value)) :=
  match query with
  | VUndefined => None
  | VArray [item] =>
      match item with
      | VBool true => None
      | _ => entriesOf item
      end
  | VArray _ => None
  | VBool true => None
  | _ => entriesOf query
  end.

(** The state of the loop when it starts. *)
Definition startLevel (query : value) (ctx : Context) : Level :=
  mkLevel (levelExpression query ctx) None None.

(** The parsed key of an entry that reaches the recursive call of line
    106: its key is not ["()"], parses, and is not skipped by the tests of
    lines 98 and 102. *)
Definition acceptedKey (key : string) : option ParsedKey :=
  if String.eqb key "()" then None
  else
    match parseKey key with
    | Err _ => None
    | Ok pk =>
        if ignoreBuiltInKeys cfg && includes (builtInKeys host) (key_sourceKey pk)
        then None
        else if testKey (key_sourceKey pk) (ignoreKeys cfg)
                && negb (testKey (key_sourceKey pk) (acceptKeys cfg))
        then None
        else Some pk
    end.

(** The context of the recursive call for an entry. *)
Definition entryContext (pk : ParsedKey) : Context :=
  mkContext (Some (key_sourceKey pk)) (key_isOptional pk).

(** [Visits query ctx v ctx']: while it parses [query] in the context
    [ctx], [_parseQuery] is called on [v] in the context [ctx'], all the
    entries before it having been processed without an error. *)
Inductive Visits : value -> Context -> value -> Context -> Prop :=
| Visits_here query ctx : Visits query ctx query ctx
| Visits_entry query ctx entries pre key value post st pk v ctx' :
    levelEntries query = Some entries ->
    entries = pre ++ (key, value) :: post ->
    parseEntries pre (startLevel query ctx) = Ok st ->
    acceptedKey key = Some pk ->
    Visits value (entryContext pk) v ctx' ->
    Visits query ctx v ctx'.

(** [SubQuery query v]: [v] is [query] or the value of an accepted entry,
    at any depth. *)
Inductive SubQuery : value -> value -> Prop :=
| SubQuery_here query : SubQuery query query
| SubQuery_entry query entries key value pk v :
    levelEntries query = Some entries ->
    In (key, value) entries ->
    acceptedKey key = Some pk ->
    SubQuery value v ->
    SubQuery query v.

End Levels.

(** ** Vocabulary of the statements *)

(** A pattern matches a key. *)
Definition matches (p : pattern) (key : string) : Prop :=
  match p with
  | PString s => s = key
  | PRegExp test => test key = true
  end.

(** No node of the expression has both [nextExpression] and
    [nestedExpressions]. *)
Fixpoint exclusive (e : Expression) : bool :=
  negb (match nextExpression e, nestedExpressions e with
        | Some _, Some _ => true
        | _, _ => false
        end)
  && match nextExpression e with
     | Some n => exclusive n
     | None => true
     end
  && match nestedExpressions e with
     | Some o => forallb (fun kc => exclusive (snd kc)) o
     | None => true
     end.

(** A mapping as a query: by itself, or as the element of a one-element
    array. *)
Definition asQuery (collection : bool) (body : value) : value :=
  if collection then VArray [body] else body.

(** An expression without children or parameters. *)
Definition leaf (sourceKey : string) (isOptional : bool) : Expression :=
  mkExpression sourceKey isOptional false None None None.

(** [key] is an own property name of a link of the chain. *)
Definition onChain (object : chain) (key : string) : Prop :=
  exists names, In names object /\ In key names.

(** [key] is a property name found on [obj], [func] or [Obj] or on one of
    their prototypes. *)
Definition hostProperty (host : Host) (key : string) : Prop :=
  onChain (host_obj host) key \/ onChain (host_func host) key
  \/ onChain (host_Obj host) key.

Definition reservedName (key : string) : Prop := key = "name" \/ key = "length".

Definition objectOf (o : option (list (string * Expression)))
  : list (string * Expression) :=
  match o with
  | Some o => o
  | None => []
  end.

(** [f] applied to the expression under construction. *)
Definition mapLevel (f : Expression -> Expression) (st : Level) : Level :=
  mkLevel (f (lv_expression st)) (lv_nestedExpressions st) (lv_nextExpression st).

(** The loop changes nothing of the expression but [params]. *)
Definition sameButParams (e e' : Expression) : Prop :=
  sourceKey e' = sourceKey e /\ isOptional e' = isOptional e
  /\ useCollectionElements e' = useCollectionElements e
  /\ nextExpression e' = nextExpression e
  /\ nestedExpressions e' = nestedExpressions e.

(** The children gathered so far have the property. *)
Definition childrenExclusive (st : Level) : Prop :=
  (forall n, lv_nextExpression st = Some n -> exclusive n = true)
  /\ (forall o, lv_nestedExpressions st = Some o ->
                forallb (fun kc => exclusive (snd kc)) o = true).

Definition parsesExclusive (host : Host) (cfg : Config) (query : value) : Prop :=
  forall ctx e, _parseQuery host query ctx cfg = Ok e -> exclusive e = true.

Definition bodyExclusive (host : Host) (cfg : Config) (query : value) : Prop :=
  forall expression e,
    nextExpression expression = None ->
    nestedExpressions expression = None ->
    parseBody host cfg expression query = Ok e ->
    exclusive e = true.

(** The entry [key: value] appears in [e] at its level: the child parsed
    from [value] is [nextExpression] when the target key is empty, and the
    property of [nestedExpressions] under the target key otherwise. *)
Definition appears (host : Host) (cfg : Config) (e : Expression)
    (key : string) (value : value) : Prop :=
  exists pk sub,
    acceptedKey host cfg key = Some pk
    /\ _parseQuery host value (entryContext pk) cfg = Ok sub
    /\ if String.eqb (key_targetKey pk) ""
       then nextExpression e = Some sub
       else exists o, nestedExpressions e = Some o
                      /\ own o (key_targetKey pk) = Some sub.

(** The value of the last entry ["()"] of a mapping, if it has one. *)
Definition lastParams (entries : list (string * value)) : option value :=
  fold_left (fun acc kv => if String.eqb (fst kv) "()" then Some (snd kv) else acc)
    entries None.

(** [c] is the child parsed from the value of an accepted entry of
    [entries] whose target key is [targetKey]. *)
Definition childOf (host : Host) (cfg : Config) (entries : list (string * value))
    (targetKey : string) (c : Expression) : Prop :=
  exists key value pk,
    In (key, value) entries
    /\ acceptedKey host cfg key = Some pk
    /\ key_targetKey pk = targetKey
    /\ _parseQuery host value (entryContext pk) cfg = Ok c.

(** The children gathered so far come from accepted entries of [all]. *)
Definition childrenFrom (host : Host) (cfg : Config) (all : list (string * value))
    (st : Level) : Prop :=
  (forall n, lv_nextExpression st = Some n -> childOf host cfg all "" n)
  /\ (forall k c, In (k, c) (objectOf (lv_nestedExpressions st)) ->
        k <> "" /\ k <> "__proto__" /\ childOf host cfg all k c).

(** The two tests of lines 98 and 102 on a source key. *)
Definition skips (host : Host) (cfg : Config) (sourceKey : string) : bool :=
  ignoreBuiltInKeys cfg && includes (builtInKeys host) sourceKey
  || testKey sourceKey (ignoreKeys cfg) && negb (testKey sourceKey (acceptKeys cfg)).

(** The values that are neither [true], nor an array, nor an object, nor
    [undefined]. *)
Definition scalar (v : value) : bool :=
  match v with
  | VNull | VBool false | VNumber _ | VString _ => true
  | _ => false
  end.

(** The source part of a key as written: the source key, followed by the
    optional marker when there is one. *)
Definition rawSource (pk : ParsedKey) : string :=
  (key_sourceKey pk ++ (if key_isOptional pk then "?" else ""))%string.

(** ** A host

    The own property names of the three objects of [getBuiltInKeys] and of
    their prototypes ([Obj.prototype], [Function.prototype],
    [Object.prototype]) in a standard engine, in the order V8 lists them.
    The parser is a module, hence strict code: [func] has no own
    [arguments] or [caller]. *)

Definition objectPrototypeNames : list string :=
  ["constructor"; "__defineGetter__"; "__defineSetter__"; "hasOwnProperty";
   "__lookupGetter__"; "__lookupSetter__"; "isPrototypeOf";
   "propertyIsEnumerable"; "toString"; "valueOf"; "__proto__"; "toLocaleString"].

Definition functionPrototypeNames : list string :=
  ["length"; "name"; "arguments"; "caller"; "constructor"; "apply"; "bind";
   "call"; "toString"].

Definition standardHost : Host :=
  mkHost
    [[]; ["constructor"]; objectPrototypeNames]
    [["length"; "name"; "prototype"]; functionPrototypeNames; objectPrototypeNames]
    [["length"; "name"; "prototype"]; functionPrototypeNames; objectPrototypeNames].

(** * Properties *)

(** ** Examples *)

Example parseKey_plain : parseKey "movies" = Ok (mkParsedKey "movies" "movies" false).
Proof. reflexivity. Qed.

Example parseKey_alias :
  parseKey "movies=>actionMovies" = Ok (mkParsedKey "movies" "actionMovies" false).
Proof. reflexivity. Qed.

Example parseKey_empty_target : parseKey "reverse=>" = Ok (mkParsedKey "reverse" "" false).
Proof. reflexivity. Qed.

Example parseKey_optional_alias :
  parseKey "rating?=>score" = Ok (mkParsedKey "rating" "score" true).
Proof. reflexivity. Qed.

Example parseKey_three_parts : parseKey "a=>b=>c" = Err (InvalidKeySyntax "a=>b=>c").
Proof. reflexivity. Qed.

Example split_arrow_greedy : split_arrow "a==>b" = ["a="; "b"].
Proof. reflexivity. Qed.

(** The example in the header of [parser.js]. *)
Example parseQuery_header_example :
  parseQuery standardHost
    (VObject
       [("movies=>actionMovies",
         VObject
           [("()", VObject [("genre", VString "action")]);
            ("reverse=>",
             VArray [VObject [("title", VBool true); ("year", VBool true)]])])])
    noOptions =
  Ok (set_nestedExpressions
        [("actionMovies",
          set_nextExpression
            (set_useCollectionElements
               (set_nestedExpressions
                  [("title", leaf "title" false); ("year", leaf "year" false)]
                  (leaf "reverse" false)))
            (set_params (VObject [("genre", VString "action")])
               (leaf "movies" false)))]
        (leaf "" false)).
Proof. reflexivity. Qed.

Example builtInKeys_standardHost :
  builtInKeys standardHost =
  ["constructor"; "__defineGetter__"; "__defineSetter__"; "hasOwnProperty";
   "__lookupGetter__"; "__lookupSetter__"; "isPrototypeOf";
   "propertyIsEnumerable"; "toString"; "valueOf"; "__proto__"; "toLocaleString";
   "prototype"; "arguments"; "caller"; "apply"; "bind"; "call"].
Proof. reflexivity. Qed.

(** ** The result monad *)

Lemma bind_Ok {A B} (r : result A) (k : A -> result B) (b : B) :
  bind r k = Ok b <-> exists a, r = Ok a /\ k a = Ok b.
Proof.
  destruct r as [a|e]; simpl; split.
  - intros H. exists a. auto.
  - intros (a' & Ha & Hk). congruence.
  - discriminate.
  - intros (a' & Ha & _). discriminate.
Qed.

(** ** [_parseQuery] through its loop *)

Section Unfolding.
Variable host : Host.
Variable cfg : Config.

Lemma array_loop_eq items : forall index st,
  (fix loop (index : nat) (items : list value) (st : Level) {struct items}
     : result Level :=
     match items with
     | [] => Ok st
     | value :: rest =>
         let* st' :=
           processEntry host cfg (_parseQuery host value) (index_key index)
             value st in
         loop (S index) rest st'
     end) index items st
  = parseEntries host cfg (arrayEntries index items) st.
Proof.
  induction items as [|value rest IH]; intros index st; simpl.
  - reflexivity.
  - destruct (processEntry host cfg (_parseQuery host value) (index_key index)
                value st); simpl; [apply IH | reflexivity].
Qed.

Lemma body_eq expression query :
  match query with
  | VBool true => Ok expression
  | VObject entries =>
      let* st :=
        (fix loop (entries : list (string * value)) (st : Level) {struct entries}
           : result Level :=
           match entries with
           | [] => Ok st
           | (key, value) :: rest =>
               let* st' :=
                 processEntry host cfg (_parseQuery host value) key value st in
               loop rest st'
           end) entries (mkLevel expression None None) in
      finishLevel st
  | VArray items =>
      let* st :=
        (fix loop (index : nat) (items : list value) (st : Level) {struct items}
           : result Level :=
           match items with
           | [] => Ok st
           | value :: rest =>
               let* st' :=
                 processEntry host cfg (_parseQuery host value) (index_key index)
                   value st in
               loop (S index) rest st'
           end) 0 items (mkLevel expression None None) in
      finishLevel st
  | _ => Err (InvalidQueryShape query)
  end = parseBody host cfg expression query.
Proof.
  destruct query as [| |b|n|s|items|entries]; try reflexivity.
  unfold parseBody; simpl. now rewrite array_loop_eq.
Qed.

Lemma _parseQuery_unfold query ctx :
  _parseQuery host query ctx cfg =
  match query with
  | VUndefined => Err MissingQuery
  | VArray [item] =>
      parseBody host cfg (set_useCollectionElements (newExpression ctx)) item
  | VArray _ => Err InvalidArraySyntax
  | _ => parseBody host cfg (newExpression ctx) query
  end.
Proof.
  destruct query as [| |b|n|s|items|entries]; try reflexivity.
  - destruct items as [|item [|]]; try reflexivity.
    apply (body_eq (set_useCollectionElements (newExpression ctx)) item).
Qed.

(** At a level with entries, [_parseQuery] is the loop followed by the
    checks of lines 125-136. *)
Lemma _parseQuery_level query ctx entries :
  levelEntries query = Some entries ->
  _parseQuery host query ctx cfg =
  (let* st := parseEntries host cfg entries (startLevel query ctx) in
   finishLevel st).
Proof.
  intros H. rewrite _parseQuery_unfold. unfold startLevel.
  destruct query as [| |b|n|s|items|es]; simpl in H; try discriminate.
  - destruct b; discriminate.
  - destruct items as [|item [|]]; try discriminate.
    destruct item as [| |b|n|s|items|es]; simpl in H; try discriminate.
    + destruct b; discriminate.
    + injection H as <-. reflexivity.
    + injection H as <-. reflexivity.
  - injection H as <-. reflexivity.
Qed.

Lemma _parseQuery_object collection entries ctx :
  _parseQuery host (asQuery collection (VObject entries)) ctx cfg =
  (let* st :=
     parseEntries host cfg entries
       (mkLevel (if collection then set_useCollectionElements (newExpression ctx)
                 else newExpression ctx) None None) in
   finishLevel st).
Proof. rewrite _parseQuery_unfold. now destruct collection. Qed.

Lemma parseEntries_app pre post st :
  parseEntries host cfg (pre ++ post) st =
  (let* st' := parseEntries host cfg pre st in parseEntries host cfg post st').
Proof.
  revert st. induction pre as [|[key value] pre IH]; intros st; simpl.
  - reflexivity.
  - destruct (processEntry host cfg (_parseQuery host value) key value st);
      simpl; [apply IH | reflexivity].
Qed.


Lemma parseEntries_middle pre key value post st :
  parseEntries host cfg (pre ++ (key, value) :: post) st =
  (let* st1 := parseEntries host cfg pre st in
   let* st2 := processEntry host cfg (_parseQuery host value) key value st1 in
   parseEntries host cfg post st2).
Proof. now rewrite parseEntries_app. Qed.

(** The three things that can happen to an entry. *)

Lemma processEntry_params value recur st :
  processEntry host cfg recur "()" value st =
  Ok (mkLevel (set_params value (lv_expression st))
        (lv_nestedExpressions st) (lv_nextExpression st)).
Proof. reflexivity. Qed.

Lemma processEntry_accepted key value recur st pk :
  acceptedKey host cfg key = Some pk ->
  processEntry host cfg recur key value st =
  (let* sub := recur (entryContext pk) cfg in place (key_targetKey pk) sub st).
Proof.
  unfold acceptedKey, processEntry. intros H.
  destruct (String.eqb key "()"); [discriminate|].
  destruct (parseKey key) as [pk'|]; [|discriminate]. simpl.
  destruct (ignoreBuiltInKeys cfg && includes (builtInKeys host) (key_sourceKey pk'));
    [discriminate|].
  destruct (testKey (key_sourceKey pk') (ignoreKeys cfg)
            && negb (testKey (key_sourceKey pk') (acceptKeys cfg)));
    [discriminate|].
  injection H as ->. reflexivity.
Qed.

Lemma processEntry_skipped key value recur st pk :
  key <> "()" ->
  parseKey key = Ok pk ->
  acceptedKey host cfg key = None ->
  processEntry host cfg recur key value st = Ok st.
Proof.
  unfold acceptedKey, processEntry. intros Hk Hpk H.
  apply String.eqb_neq in Hk. rewrite Hk in *. rewrite Hpk in *. simpl.
  destruct (ignoreBuiltInKeys cfg && includes (builtInKeys host) (key_sourceKey pk));
    [reflexivity|].
  destruct (testKey (key_sourceKey pk) (ignoreKeys cfg)
            && negb (testKey (key_sourceKey pk) (acceptKeys cfg)));
    [reflexivity|discriminate].
Qed.

End Unfolding.

(** ** Strings *)


Lemma substring_all s : substring 0 (String.length s) s = s.
Proof. induction s as [|c s IH]; simpl; [reflexivity | now rewrite IH]. Qed.






(** ** The array of built-in keys *)

Lemma includes_In array key : includes array key = true <-> In key array.
Proof.
  unfold includes. rewrite existsb_exists. split.
  - intros (x & Hx & He). apply String.eqb_eq in He. now subst.
  - intros H. exists key. split; [assumption | apply String.eqb_refl].
Qed.

Lemma addKey_In array key k :
  In k (addKey array key) <-> In k array \/ (k = key /\ ~ reservedName key).
Proof.
  unfold addKey, reservedName.
  destruct (String.eqb_spec key "name") as [->|Hn]; simpl.
  { split; [auto | intros [H|[_ H]]; [assumption | exfalso; auto]]. }
  destruct (String.eqb_spec key "length") as [->|Hl]; simpl.
  { split; [auto | intros [H|[_ H]]; [assumption | exfalso; auto]]. }
  destruct (includes array key) eqn:Hi; simpl.
  - apply includes_In in Hi.
    split; [auto | intros [H|[-> _]]; assumption].
  - rewrite in_app_iff. simpl. split.
    + intros [H|[H|[]]]; [auto | right; split; [auto | intros [?|?]; auto]].
    + intros [H|[-> _]]; auto.
Qed.

Lemma fold_addKey_In names : forall array k,
  In k (fold_left addKey names array) <->
  In k array \/ (In k names /\ ~ reservedName k).
Proof.
  induction names as [|key names IH]; intros array k; simpl.
  - split; [auto | intros [H|[[] _]]; assumption].
  - rewrite IH, addKey_In. split.
    + intros [[H|[-> H]]|[H1 H2]]; auto.
    + intros [H|[[->|H1] H2]]; auto.
Qed.

Lemma _addKeys_In object : forall array k,
  In k (_addKeys array object) <->
  In k array \/ (onChain object k /\ ~ reservedName k).
Proof.
  unfold onChain.
  induction object as [|names prototype IH]; intros array k; simpl.
  - split; [auto | intros [H|[(names & [] & _) _]]; assumption].
  - rewrite IH, fold_addKey_In. split.
    + intros [[H|[H1 H2]]|[(names' & H1 & H2) H3]]; eauto 7.
    + intros [H|[(names' & [<-|H1] & H2) H3]]; eauto 7.
Qed.

Lemma builtInKeys_In host k :
  In k (builtInKeys host) <-> hostProperty host k /\ ~ reservedName k.
Proof.
  unfold builtInKeys, hostProperty. rewrite !_addKeys_In. simpl. tauto.
Qed.

(** The module variable [_builtInKeys] is [undefined] or holds the array
    built by the first call; [getBuiltInKeys] returns that array in both
    states and leaves the second one. *)
Lemma getBuiltInKeys_memo host cache :
  cache = None \/ cache = Some (builtInKeys host) ->
  getBuiltInKeys host cache = (builtInKeys host, Some (builtInKeys host)).
Proof. intros [->| ->]; reflexivity. Qed.

(** ** Changing the expression of a level

    A change [f] of the expression under construction that commutes with
    what the loop and the final checks do to it commutes with the whole
    level. *)

Section MapLevel.
Variable host : Host.
Variable cfg : Config.
Variable f : Expression -> Expression.
Hypothesis f_next : forall n e, f (set_nextExpression n e) = set_nextExpression n (f e).
Hypothesis f_nested :
  forall o e, f (set_nestedExpressions o e) = set_nestedExpressions o (f e).

Lemma place_mapLevel targetKey sub st :
  place targetKey sub (mapLevel f st) = rmap (mapLevel f) (place targetKey sub st).
Proof.
  unfold place. simpl.
  destruct (negb (String.eqb targetKey "")); [reflexivity|].
  destruct (lv_nextExpression st); reflexivity.
Qed.

Lemma processEntry_mapLevel recur key value st :
  (key = "()" -> forall e, f (set_params value e) = set_params value (f e)) ->
  processEntry host cfg recur key value (mapLevel f st) =
  rmap (mapLevel f) (processEntry host cfg recur key value st).
Proof.
  intros Hf. unfold processEntry.
  destruct (String.eqb_spec key "()") as [Hk|Hk].
  - simpl. unfold mapLevel. simpl. now rewrite Hf.
  - destruct (parseKey key) as [pk|]; [simpl|reflexivity].
    destruct (ignoreBuiltInKeys cfg && includes (builtInKeys host) (key_sourceKey pk));
      [reflexivity|].
    destruct (testKey (key_sourceKey pk) (ignoreKeys cfg)
              && negb (testKey (key_sourceKey pk) (acceptKeys cfg)));
      [reflexivity|].
    destruct (recur _ cfg); simpl; [apply place_mapLevel | reflexivity].
Qed.

Lemma parseEntries_mapLevel entries : forall st,
  (forall value, In ("()", value) entries ->
     forall e, f (set_params value e) = set_params value (f e)) ->
  parseEntries host cfg entries (mapLevel f st) =
  rmap (mapLevel f) (parseEntries host cfg entries st).
Proof.
  induction entries as [|[key value] rest IH]; intros st Hf; simpl.
  - reflexivity.
  - rewrite processEntry_mapLevel.
    + destruct (processEntry host cfg (_parseQuery host value) key value st);
        simpl; [|reflexivity].
      apply IH. intros v Hv. apply Hf. now right.
    + intros ->. apply Hf. now left.
Qed.

Lemma finishLevel_mapLevel st :
  finishLevel (mapLevel f st) = rmap f (finishLevel st).
Proof.
  unfold finishLevel. simpl.
  destruct (lv_nextExpression st), (lv_nestedExpressions st); simpl;
    now rewrite ?f_next, ?f_nested.
Qed.

Lemma level_mapLevel entries st :
  (forall value, In ("()", value) entries ->
     forall e, f (set_params value e) = set_params value (f e)) ->
  (let* st' := parseEntries host cfg entries (mapLevel f st) in finishLevel st') =
  rmap f (let* st' := parseEntries host cfg entries st in finishLevel st').
Proof.
  intros Hf. rewrite parseEntries_mapLevel by assumption.
  destruct (parseEntries host cfg entries st); simpl;
    [apply finishLevel_mapLevel | reflexivity].
Qed.
End MapLevel.

(** ** What a successful round of the loop has done *)

Lemma place_Ok targetKey sub st st' :
  place targetKey sub st = Ok st' ->
  lv_expression st' = lv_expression st
  /\ ((targetKey <> ""
       /\ lv_nestedExpressions st' =
            Some (assign (objectOf (lv_nestedExpressions st)) targetKey sub)
       /\ lv_nextExpression st' = lv_nextExpression st)
      \/ (targetKey = ""
          /\ lv_nextExpression st = None
          /\ lv_nextExpression st' = Some sub
          /\ lv_nestedExpressions st' = lv_nestedExpressions st)).
Proof.
  unfold place. destruct (String.eqb_spec targetKey "") as [->|Hk]; simpl.
  - destruct (lv_nextExpression st) eqn:Hn; [discriminate|].
    intros [= <-]. simpl. auto 10.
  - intros [= <-]. simpl. split; [reflexivity|]. left.
    unfold objectOf. destruct (lv_nestedExpressions st); auto.
Qed.

Section Rounds.
Variable host : Host.
Variable cfg : Config.

Lemma processEntry_Ok recur key value st st' :
  processEntry host cfg recur key value st = Ok st' ->
  (key = "()" /\ st' = mapLevel (set_params value) st)
  \/ (key <> "()" /\ acceptedKey host cfg key = None /\ st' = st)
  \/ (exists pk sub,
        acceptedKey host cfg key = Some pk
        /\ recur (entryContext pk) cfg = Ok sub
        /\ place (key_targetKey pk) sub st = Ok st').
Proof.
  intros H. destruct (String.eqb_spec key "()") as [->|Hk].
  - rewrite processEntry_params in H. injection H as <-. now left.
  - destruct (acceptedKey host cfg key) as [pk|] eqn:Ha.
    + rewrite (processEntry_accepted _ _ _ _ _ _ pk Ha) in H.
      apply bind_Ok in H as (sub & Hsub & Hplace). right. right. eauto.
    + destruct (parseKey key) as [pk|] eqn:Hpk.
      * rewrite (processEntry_skipped _ _ _ _ _ _ pk Hk Hpk Ha) in H.
        injection H as <-. right. left. auto.
      * unfold processEntry in H. apply String.eqb_neq in Hk.
        rewrite Hk, Hpk in H. discriminate.
Qed.

Lemma parseEntries_expression entries : forall st st',
  parseEntries host cfg entries st = Ok st' ->
  sameButParams (lv_expression st) (lv_expression st').
Proof.
  unfold sameButParams.
  induction entries as [|[key value] rest IH]; intros st st'; simpl.
  - intros [= <-]. auto.
  - intros H. apply bind_Ok in H as (st1 & H1 & H2).
    apply IH in H2. apply processEntry_Ok in H1.
    destruct H1 as [[_ ->]|[(_ & _ & ->)|(pk & sub & _ & _ & Hp)]].
    + exact H2.
    + exact H2.
    + apply place_Ok in Hp as [He _]. now rewrite He in H2.
Qed.

Lemma finishLevel_Ok st e :
  finishLevel st = Ok e ->
  sourceKey e = sourceKey (lv_expression st)
  /\ isOptional e = isOptional (lv_expression st)
  /\ useCollectionElements e = useCollectionElements (lv_expression st)
  /\ params e = params (lv_expression st)
  /\ ((lv_nestedExpressions st = None /\ lv_nextExpression st = None
       /\ e = lv_expression st)
      \/ (exists n, lv_nextExpression st = Some n /\ lv_nestedExpressions st = None
          /\ nextExpression e = Some n
          /\ nestedExpressions e = nestedExpressions (lv_expression st))
      \/ (exists o, lv_nestedExpressions st = Some o /\ lv_nextExpression st = None
          /\ nestedExpressions e = Some o
          /\ nextExpression e = nextExpression (lv_expression st))).
Proof.
  unfold finishLevel.
  destruct (lv_nextExpression st) as [n|], (lv_nestedExpressions st) as [o|];
    try discriminate; intros [= <-]; simpl; repeat split; eauto 10.
Qed.
End Rounds.

(** ** Collection elements *)





(** ** The parameter marker *)

(** C5. The value of the entry ["()"] is stored as it is in [params] of the
    current expression, and the entry produces no child: whatever the value
    (it is not parsed), the call succeeds exactly when it does on the same
    mapping without that entry, [params] of the result is the value, and
    every other field, [nextExpression] and [nestedExpressions] among them,
    is the one of the result without the entry.  In particular
    [parseQuery({"movies=>actionMovies": {"()": {genre: "action"}}})] has
    under [actionMovies] a child with [sourceKey] ["movies"] and [params]
    [{genre: "action"}]. *)
Theorem params_marker_stored :
  (forall host cfg ctx collection pre value post,
     (forall v, ~ In ("()", v) post) ->
     _parseQuery host (asQuery collection (VObject (pre ++ ("()", value) :: post)))
       ctx cfg =
     rmap (set_params value)
       (_parseQuery host (asQuery collection (VObject (pre ++ post))) ctx cfg)
     /\ (forall e,
          _parseQuery host
            (asQuery collection (VObject (pre ++ ("()", value) :: post))) ctx cfg =
          Ok e ->
          params e = Some value
          /\ exists e',
               _parseQuery host (asQuery collection (VObject (pre ++ post))) ctx cfg =
               Ok e'
               /\ sourceKey e = sourceKey e' /\ isOptional e = isOptional e'
               /\ useCollectionElements e = useCollectionElements e'
               /\ nextExpression e = nextExpression e'
               /\ nestedExpressions e = nestedExpressions e')
     /\ (forall err,
          _parseQuery host (asQuery collection (VObject (pre ++ post))) ctx cfg =
          Err err ->
          _parseQuery host
            (asQuery collection (VObject (pre ++ ("()", value) :: post))) ctx cfg =
          Err err))
  /\ parseQuery standardHost
       (VObject [("movies=>actionMovies",
                  VObject [("()", VObject [("genre", VString "action")])])])
       noOptions =
     Ok (mkExpression "" false false None None
           (Some [("actionMovies",
                   mkExpression "movies" false false
                     (Some (VObject [("genre", VString "action")])) None None)])).
Proof.
  split; [|reflexivity].
  intros host cfg ctx collection pre value post Hpost.
  assert (Heq :
    _parseQuery host (asQuery collection (VObject (pre ++ ("()", value) :: post)))
      ctx cfg =
    rmap (set_params value)
      (_parseQuery host (asQuery collection (VObject (pre ++ post))) ctx cfg)).
  { rewrite !_parseQuery_object, parseEntries_middle, parseEntries_app.
    destruct (parseEntries host cfg pre _) as [st|]; simpl; [|reflexivity].
    apply (level_mapLevel host cfg (set_params value)) with (st := st);
      try reflexivity.
    intros v Hv. now contradiction (Hpost v). }
  split; [exact Heq|]. rewrite Heq.
  destruct (_parseQuery host (asQuery collection (VObject (pre ++ post))) ctx cfg)
    as [e'|err']; simpl; split.
  - intros e [= <-]. split; [reflexivity|]. exists e'. repeat split.
  - discriminate.
  - discriminate.
  - intros err [= <-]. reflexivity.
Qed.

Lemma params_marker_stored_witness :
  (forall v, ~ In ("()", v) (@nil (string * value)))
  /\ _parseQuery standardHost
       (VObject [("()", VObject [("genre", VString "action")])])
       (mkContext (Some "movies") false) (configOf noOptions) =
     Ok (mkExpression "movies" false false
           (Some (VObject [("genre", VString "action")])) None None)
  /\ params
       (mkExpression "movies" false false
          (Some (VObject [("genre", VString "action")])) None None) =
     Some (VObject [("genre", VString "action")]).
Proof.
  split; [intros v []|]. split; [vm_compute; reflexivity|].
  destruct params_marker_stored as [H _].
  destruct (H standardHost (configOf noOptions) (mkContext (Some "movies") false)
              false [] (VObject [("genre", VString "action")]) [] (fun v h => h))
    as (_ & Hparams & _).
  apply Hparams. vm_compute; reflexivity.
Defined.

(** ** Values that are not queries *)

(** [null], [false], numbers and strings are rejected with the value in the
    error, as a query and as the element of a one-element array; so is
    [undefined] as such an element. *)
Lemma scalar_rejected host cfg ctx query :
  query = VNull \/ query = VBool false \/ (exists n, query = VNumber n)
  \/ (exists s, query = VString s) ->
  _parseQuery host query ctx cfg = Err (InvalidQueryShape query)
  /\ _parseQuery host (VArray [query]) ctx cfg = Err (InvalidQueryShape query).
Proof. intros [->|[->|[[n ->]|[s ->]]]]; split; reflexivity. Qed.

Lemma undefined_element_rejected host cfg ctx :
  _parseQuery host (VArray [VUndefined]) ctx cfg = Err (InvalidQueryShape VUndefined).
Proof. reflexivity. Qed.

(** C6, on the code: an array that is the element of a one-element array is
    not rejected.  It passes the test [typeof query !== 'object'] of line 83
    and its elements are parsed as the entries ["0"], ["1"], ... of a
    mapping: [parseQuery([[]])] and [parseQuery([[true]])] return
    expressions. *)
Theorem nested_array_accepted :
  (forall host,
     parseQuery host (VArray [VArray []]) noOptions =
     Ok (set_useCollectionElements (leaf "" false)))
  /\ parseQuery standardHost (VArray [VArray [VBool true]]) noOptions =
     Ok (set_useCollectionElements
           (set_nestedExpressions [("0", leaf "0" false)] (leaf "" false))).
Proof. split; reflexivity. Qed.

(** ** The optional marker *)



(** ** Ignored and accepted keys *)

Lemma testKey_matches key patterns :
  testKey key patterns = true <-> exists p, In p patterns /\ matches p key.
Proof.
  unfold testKey. rewrite existsb_exists.
  split; intros (p & Hin & Hp); exists p; (split; [exact Hin|]);
    destruct p as [s|test]; simpl in *; try assumption.
  - now apply String.eqb_eq.
  - now apply String.eqb_eq.
Qed.

(** An entry that the loop skips can be taken out of the mapping. *)
Lemma skipped_entry_removed host cfg key value pk :
  key <> "()" -> parseKey key = Ok pk -> acceptedKey host cfg key = None ->
  forall collection pre post ctx,
    _parseQuery host (asQuery collection (VObject (pre ++ (key, value) :: post)))
      ctx cfg =
    _parseQuery host (asQuery collection (VObject (pre ++ post))) ctx cfg.
Proof.
  intros Hk Hpk Ha collection pre post ctx.
  rewrite !_parseQuery_object, parseEntries_middle, parseEntries_app.
  destruct (parseEntries host cfg pre _) as [st|]; simpl; [|reflexivity].
  now rewrite (processEntry_skipped host cfg key value _ st pk Hk Hpk Ha).
Qed.

(** ** Built-in keys are skipped *)

(** C10. With [ignoreBuiltInKeys] set, as it is by default, an entry whose
    source key is ["name"] or ["length"] is never skipped by the test on
    built-in keys: these two names are not in the array [getBuiltInKeys]
    builds, and the entry goes on to the test on [ignoreKeys].  An entry
    whose source key is any other property name found on [obj], [func] or
    [Obj] or on their prototypes is in that array and is skipped. *)
Theorem builtin_keys_filter host cfg recur key value st pk :
  ignoreBuiltInKeys cfg = true ->
  key <> "()" ->
  parseKey key = Ok pk ->
  (reservedName (key_sourceKey pk) ->
   includes (builtInKeys host) (key_sourceKey pk) = false
   /\ processEntry host cfg recur key value st =
      if testKey (key_sourceKey pk) (ignoreKeys cfg)
         && negb (testKey (key_sourceKey pk) (acceptKeys cfg))
      then Ok st
      else (let* sub := recur (entryContext pk) cfg in
            place (key_targetKey pk) sub st))
  /\ (hostProperty host (key_sourceKey pk) -> ~ reservedName (key_sourceKey pk) ->
      includes (builtInKeys host) (key_sourceKey pk) = true
      /\ processEntry host cfg recur key value st = Ok st
      /\ forall collection pre post ctx,
           _parseQuery host
             (asQuery collection (VObject (pre ++ (key, value) :: post))) ctx cfg =
           _parseQuery host (asQuery collection (VObject (pre ++ post))) ctx cfg).
Proof.
  intros Hb Hk Hpk. split.
  - intros Hr.
    assert (Hi : includes (builtInKeys host) (key_sourceKey pk) = false).
    { destruct (includes _ _) eqn:Hi; [|reflexivity].
      apply includes_In, builtInKeys_In in Hi as [_ Hn]. now contradiction Hn. }
    split; [exact Hi|].
    unfold processEntry. apply String.eqb_neq in Hk. rewrite Hk, Hpk. simpl.
    rewrite Hb, Hi. reflexivity.
  - intros Hh Hr.
    assert (Hi : includes (builtInKeys host) (key_sourceKey pk) = true)
      by (apply includes_In, builtInKeys_In; auto).
    assert (Ha : acceptedKey host cfg key = None).
    { unfold acceptedKey. apply String.eqb_neq in Hk. now rewrite Hk, Hpk, Hb, Hi. }
    split; [exact Hi|]. split.
    + now apply processEntry_skipped with (pk := pk).
    + now apply skipped_entry_removed with (pk := pk).
Qed.

Lemma builtin_keys_filter_witness :
  ignoreBuiltInKeys (configOf noOptions) = true
  /\ parseQuery standardHost
       (VObject [("constructor", VNull); ("name", VBool true);
                 ("toString", VNull); ("length", VBool true);
                 ("hasOwnProperty", VNull)]) noOptions =
     Ok (set_nestedExpressions
           [("name", leaf "name" false); ("length", leaf "length" false)]
           (leaf "" false)).
Proof.
  split; [reflexivity|].
  assert (Hskip : forall key pre post,
    key <> "()" -> parseKey key = Ok (mkParsedKey key key false) ->
    In key objectPrototypeNames -> ~ reservedName key ->
    parseQuery standardHost (VObject (pre ++ (key, VNull) :: post)) noOptions =
    parseQuery standardHost (VObject (pre ++ post)) noOptions).
  { intros key pre post Hk Hpk Hin Hr.
    destruct (builtin_keys_filter standardHost (configOf noOptions)
                (_parseQuery standardHost VNull) key VNull
                (mkLevel (leaf "" false) None None) (mkParsedKey key key false)
                eq_refl Hk Hpk) as [_ H].
    destruct H as (_ & _ & H); [| exact Hr | exact (H false pre post rootContext)].
    left. exists objectPrototypeNames. split; [simpl; auto | exact Hin]. }
  eapply eq_trans.
  { apply (Hskip "constructor" []
             [("name", VBool true); ("toString", VNull); ("length", VBool true);
              ("hasOwnProperty", VNull)]);
      [discriminate | reflexivity | simpl; auto 20 | intros [H|H]; discriminate]. }
  eapply eq_trans.
  { apply (Hskip "toString" [("name", VBool true)]
             [("length", VBool true); ("hasOwnProperty", VNull)]);
      [discriminate | reflexivity | simpl; auto 20 | intros [H|H]; discriminate]. }
  eapply eq_trans.
  { apply (Hskip "hasOwnProperty" [("name", VBool true); ("length", VBool true)] []);
      [discriminate | reflexivity | simpl; auto 20 | intros [H|H]; discriminate]. }
  reflexivity.
Defined.

(** ** Arrays *)

Lemma parseQuery_eq host query options :
  parseQuery host query options = _parseQuery host query rootContext (configOf options).
Proof. now destruct query. Qed.

Lemma bad_array_rejected host cfg items ctx :
  List.length items <> 1 -> _parseQuery host (VArray items) ctx cfg = Err InvalidArraySyntax.
Proof.
  intros H. rewrite _parseQuery_unfold.
  destruct items as [|item [|]]; simpl in H; [reflexivity | lia | reflexivity].
Qed.

Section Propagation.
Variable host : Host.
Variable cfg : Config.

(** The first error met is the error of the whole call. *)
Lemma visited_error query ctx v ctx' err :
  Visits host cfg query ctx v ctx' ->
  _parseQuery host v ctx' cfg = Err err ->
  _parseQuery host query ctx cfg = Err err.
Proof.
  induction 1 as [|query ctx entries pre key value post st pk v ctx'
                    Hentries -> Hpre Ha _ IH]; intros Herr.
  - exact Herr.
  - rewrite (_parseQuery_level host cfg query ctx _ Hentries).
    rewrite parseEntries_middle, Hpre. simpl.
    rewrite (processEntry_accepted host cfg key value _ st pk Ha).
    now rewrite (IH Herr).
Qed.

(** A call that succeeds has succeeded on every accepted entry. *)
Lemma subquery_parsed query v :
  SubQuery host cfg query v ->
  forall ctx e, _parseQuery host query ctx cfg = Ok e ->
  exists ctx' e', _parseQuery host v ctx' cfg = Ok e'.
Proof.
  induction 1 as [|query entries key value pk v Hentries Hin Ha _ IH];
    intros ctx e He.
  - eauto.
  - rewrite (_parseQuery_level host cfg query ctx _ Hentries) in He.
    apply bind_Ok in He as (st & Hst & _).
    apply in_split in Hin as (pre & post & ->).
    rewrite parseEntries_middle in Hst.
    apply bind_Ok in Hst as (st1 & _ & Hst).
    apply bind_Ok in Hst as (st2 & Hst & _).
    rewrite (processEntry_accepted host cfg key value _ st1 pk Ha) in Hst.
    apply bind_Ok in Hst as (sub & Hsub & _).
    eapply IH; eassumption.
Qed.
End Propagation.

(** X16. An array that [_parseQuery] is called on, as the query or as the
    value of an accepted entry, with no element or more than one, makes
    [parseQuery] fail with "An array should contain exactly one item";
    errors ending the call at once, this is for the arrays the parser gets
    to.  Whatever the order of the entries, a call that succeeds has met no
    such array among the query and the values of the accepted entries.  The
    element of a one-element array is not among them: line 72 is not run on
    it. *)
Theorem array_length_checked host options query items :
  List.length items <> 1 ->
  (forall ctx',
     Visits host (configOf options) query rootContext (VArray items) ctx' ->
     parseQuery host query options = Err InvalidArraySyntax)
  /\ (SubQuery host (configOf options) query (VArray items) ->
      forall e, parseQuery host query options <> Ok e).
Proof.
  intros Hlen. rewrite parseQuery_eq. split.
  - intros ctx' Hv. eapply visited_error; [exact Hv|].
    now apply bad_array_rejected.
  - intros Hs e He.
    destruct (subquery_parsed _ _ _ _ Hs _ _ He) as (ctx' & e' & He').
    rewrite bad_array_rejected in He' by assumption. discriminate.
Qed.

Lemma array_length_checked_witness :
  List.length (@nil value) <> 1
  /\ parseQuery standardHost
       (VObject [("title", VBool true); ("movies", VArray [])]) noOptions =
     Err InvalidArraySyntax.
Proof.
  split; [discriminate|].
  destruct (array_length_checked standardHost noOptions
              (VObject [("title", VBool true); ("movies", VArray [])]) [])
    as [H _]; [discriminate|].
  apply (H (mkContext (Some "movies") false)).
  eapply (Visits_entry standardHost (configOf noOptions) _ _ _
            [("title", VBool true)] "movies" (VArray []) []);
    [reflexivity | reflexivity | vm_compute; reflexivity | vm_compute; reflexivity
    | apply Visits_here].
Defined.

(** ** Empty targets *)

Section EmptyTargets.
Variable host : Host.
Variable cfg : Config.

(** Once set, [nextExpression] stays, and no later entry that is accepted
    has an empty target. *)
Lemma parseEntries_next entries : forall st st' n,
  parseEntries host cfg entries st = Ok st' ->
  lv_nextExpression st = Some n ->
  lv_nextExpression st' = Some n
  /\ forall key value pk,
       In (key, value) entries -> acceptedKey host cfg key = Some pk ->
       key_targetKey pk <> "".
Proof.
  induction entries as [|[key value] rest IH]; intros st st' n H Hn; simpl in H.
  - injection H as <-. split; [exact Hn | intros ? ? ? []].
  - apply bind_Ok in H as (st1 & H1 & H2).
    apply processEntry_Ok in H1.
    destruct H1 as [[-> ->]|[(Hk & Ha & ->)|(pk & sub & Ha & Hsub & Hp)]].
    + destruct (IH _ _ n H2 Hn) as [IH1 IH2]. split; [exact IH1|].
      intros key' value' pk' [[= <- <-]|Hin] Ha'; [discriminate|eauto].
    + destruct (IH _ _ n H2 Hn) as [IH1 IH2]. split; [exact IH1|].
      intros key' value' pk' [[= <- <-]|Hin] Ha'; [congruence|eauto].
    + apply place_Ok in Hp as [_ [(Ht & _ & Hn')|(_ & Hnone & _)]]; [|congruence].
      rewrite <- Hn' in Hn.
      destruct (IH _ _ n H2 Hn) as [IH1 IH2]. split; [exact IH1|].
      intros key' value' pk' [[= <- <-]|Hin] Ha'; [congruence|eauto].
Qed.

(** After an accepted entry with an empty target, [nextExpression] is the
    child parsed from its value. *)
Lemma parseEntries_empty_target pre key value post st st' pk :
  parseEntries host cfg (pre ++ (key, value) :: post) st = Ok st' ->
  acceptedKey host cfg key = Some pk ->
  key_targetKey pk = "" ->
  exists sub,
    _parseQuery host value (entryContext pk) cfg = Ok sub
    /\ lv_nextExpression st' = Some sub
    /\ (forall key' value' pk',
          In (key', value') post -> acceptedKey host cfg key' = Some pk' ->
          key_targetKey pk' <> "").
Proof.
  intros H Ha Ht. rewrite parseEntries_middle in H.
  apply bind_Ok in H as (st1 & _ & H).
  apply bind_Ok in H as (st2 & H2 & H3).
  rewrite (processEntry_accepted host cfg key value _ st1 pk Ha) in H2.
  apply bind_Ok in H2 as (sub & Hsub & Hp).
  apply place_Ok in Hp as [_ [(Hne & _)|(_ & _ & Hn & _)]]; [congruence|].
  destruct (parseEntries_next post st2 st' sub H3 Hn) as [Hn' Hpost].
  exists sub. auto.
Qed.
End EmptyTargets.



(** ** Assignment to [nestedExpressions] *)

Lemma own_assign_own_eq {A} (o : list (string * A)) k x :
  own (assign_own o k x) k = Some x.
Proof.
  induction o as [|[k' y] o IH]; simpl.
  - now rewrite String.eqb_refl.
  - destruct (String.eqb k' k) eqn:E; simpl; rewrite E; [reflexivity | exact IH].
Qed.

Lemma own_assign_own_ne {A} (o : list (string * A)) k x k' :
  k <> k' -> own (assign_own o k x) k' = own o k'.
Proof.
  intros Hne. induction o as [|[k0 y] o IH]; simpl.
  - apply String.eqb_neq in Hne. now rewrite Hne.
  - destruct (String.eqb_spec k0 k) as [->|Hk]; simpl.
    + apply String.eqb_neq in Hne. now rewrite Hne.
    + now rewrite IH.
Qed.

Lemma own_assign_eq {A} (o : list (string * A)) k x :
  k <> "__proto__" -> own (assign o k x) k = Some x.
Proof.
  intros Hk. unfold assign. apply String.eqb_neq in Hk. rewrite Hk.
  apply own_assign_own_eq.
Qed.

Lemma own_assign_ne {A} (o : list (string * A)) k x k' :
  k <> k' -> own (assign o k x) k' = own o k'.
Proof.
  intros Hne. unfold assign.
  destruct (String.eqb k "__proto__"); [reflexivity | now apply own_assign_own_ne].
Qed.

Lemma assign_own_keys {A} (o : list (string * A)) k x k' :
  In k' (map fst (assign_own o k x)) <-> In k' (map fst o) \/ k' = k.
Proof.
  induction o as [|[k0 y] o IH]; simpl.
  - intuition.
  - destruct (String.eqb_spec k0 k) as [->|Hk]; simpl; [|rewrite IH]; intuition.
Qed.

Lemma assign_NoDup {A} (o : list (string * A)) k x :
  NoDup (map fst o) -> NoDup (map fst (assign o k x)).
Proof.
  unfold assign. destruct (String.eqb k "__proto__"); [auto|].
  induction o as [|[k0 y] o IH]; simpl; intros Hnd.
  - constructor; [intros [] | constructor].
  - inversion Hnd as [|? ? Hnotin Hnd']; subst.
    destruct (String.eqb_spec k0 k) as [->|Hk]; simpl.
    + now constructor.
    + constructor; [|auto].
      rewrite assign_own_keys. intros [H|H]; [auto | congruence].
Qed.

Lemma assign_forallb {A} (p : string * A -> bool) (o : list (string * A)) k x :
  (forall k', p (k', x) = true) ->
  forallb p o = true -> forallb p (assign o k x) = true.
Proof.
  intros Hx. unfold assign. destruct (String.eqb k "__proto__"); [auto|].
  induction o as [|[k0 y] o IH]; simpl.
  - intros _. now rewrite Hx.
  - intros H. apply andb_prop in H as [H1 H2].
    destruct (String.eqb k0 k); simpl.
    + now rewrite Hx, H2.
    + now rewrite H1, IH.
Qed.

(** ** Next or nested, never both *)

Lemma exclusive_eq e :
  exclusive e =
  negb (match nextExpression e, nestedExpressions e with
        | Some _, Some _ => true
        | _, _ => false
        end)
  && match nextExpression e with
     | Some n => exclusive n
     | None => true
     end
  && match nestedExpressions e with
     | Some o => forallb (fun kc => exclusive (snd kc)) o
     | None => true
     end.
Proof. now destruct e. Qed.

Lemma arrayEntries_values items : forall index key value,
  In (key, value) (arrayEntries index items) -> In value items.
Proof.
  induction items as [|v rest IH]; intros index key value; simpl.
  - intros [].
  - intros [H|H]; [injection H as _ <-; auto | right; eapply IH; eassumption].
Qed.

Section Exclusive.
Variable host : Host.
Variable cfg : Config.

Lemma parseEntries_exclusive entries :
  (forall key value, In (key, value) entries -> parsesExclusive host cfg value) ->
  forall st st',
    parseEntries host cfg entries st = Ok st' ->
    childrenExclusive st -> childrenExclusive st'.
Proof.
  induction entries as [|[key value] rest IH]; intros Hentries st st' H Hst;
    simpl in H.
  - now injection H as <-.
  - apply bind_Ok in H as (st1 & H1 & H2).
    apply (IH (fun k v Hin => Hentries k v (or_intror Hin)) st1 st' H2).
    apply processEntry_Ok in H1.
    destruct H1 as [[_ ->]|[(_ & _ & ->)|(pk & sub & _ & Hsub & Hp)]];
      [exact Hst | exact Hst |].
    apply (Hentries key value (or_introl eq_refl)) in Hsub.
    destruct Hst as [Hnext Hnested].
    apply place_Ok in Hp as [_ [(_ & Ho & Hn)|(_ & _ & Hn & Ho)]]; split.
    + now rewrite Hn.
    + rewrite Ho. intros o [= <-]. apply assign_forallb; [auto|].
      unfold objectOf. destruct (lv_nestedExpressions st); [auto | reflexivity].
    + rewrite Hn. now intros n [= <-].
    + now rewrite Ho.
Qed.

Lemma parseBody_exclusive expression query e :
  (forall entries key value,
     entriesOf query = Some entries -> In (key, value) entries ->
     parsesExclusive host cfg value) ->
  nextExpression expression = None ->
  nestedExpressions expression = None ->
  parseBody host cfg expression query = Ok e ->
  exclusive e = true.
Proof.
  intros Hchildren Hn Ho H.
  assert (Hleaf : forall e', sameButParams expression e' -> exclusive e' = true).
  { intros e' (_ & _ & _ & Hn' & Ho'). rewrite exclusive_eq, Hn', Ho', Hn, Ho.
    reflexivity. }
  unfold parseBody in H.
  destruct query as [| |[|] |n|s|items|entries]; simpl in H; try discriminate.
  { injection H as <-. apply Hleaf. repeat split. }
  all: apply bind_Ok in H as (st & Hst & Hfin);
    pose proof (parseEntries_expression host cfg _ _ _ Hst) as Hsame;
    apply parseEntries_exclusive in Hst;
    [ | intros key value Hin; eapply Hchildren; [reflexivity | exact Hin]
      | split; discriminate ];
    destruct Hst as [Hnext Hnested];
    destruct Hsame as (_ & _ & _ & Hn' & Ho'); simpl in Hn', Ho';
    apply finishLevel_Ok in Hfin
      as (_ & _ & _ & _ & [(_ & _ & ->)|[(n' & Hs & _ & He1 & He2)
                                        |(o & Hs & _ & He1 & He2)]]).
  all: rewrite exclusive_eq.
  all: try (rewrite Hn', Ho', Hn, Ho; reflexivity).
  all: try (rewrite He1, He2, Ho', Ho, (Hnext _ Hs); reflexivity).
  all: rewrite He1, He2, Hn', Hn, (Hnested _ Hs); reflexivity.
Qed.

Lemma parsesExclusive_of_body query :
  (forall items, query <> VArray items) ->
  bodyExclusive host cfg query -> parsesExclusive host cfg query.
Proof.
  intros Harray Hbody ctx e He. rewrite _parseQuery_unfold in He.
  destruct query as [| |b|n|s|items|entries];
    try discriminate; try (now apply (Hbody (newExpression ctx) e)).
  now contradiction (Harray items).
Qed.

Lemma exclusive_both query : parsesExclusive host cfg query /\ bodyExclusive host cfg query.
Proof.
  induction query as [| |b|n|s|items IH|entries IH] using value_nested_ind.
  1-5: (match goal with
        | |- parsesExclusive host cfg ?q /\ _ => assert (bodyExclusive host cfg q) as Hbody
        end;
        [ intros expression e Hn Ho He;
          eapply parseBody_exclusive; [ | exact Hn | exact Ho | exact He];
          intros ? ? ? Hes; discriminate Hes
        | split; [apply parsesExclusive_of_body; [discriminate | exact Hbody]
                 | exact Hbody] ]).
  - split.
    + intros ctx e He. rewrite _parseQuery_unfold in He.
      destruct items as [|item [|]]; try discriminate.
      apply Forall_inv in IH. destruct IH as [_ IH].
      now apply (IH (set_useCollectionElements (newExpression ctx)) e).
    + intros expression e Hn Ho He.
      apply (parseBody_exclusive expression (VArray items) e); try assumption.
      intros es key value [= <-] Hin. apply arrayEntries_values in Hin.
      rewrite Forall_forall in IH. now apply IH.
  - assert (bodyExclusive host cfg (VObject entries)) as Hbody.
    { intros expression e Hn Ho He.
      apply (parseBody_exclusive expression (VObject entries) e); try assumption.
      intros es key value [= <-] Hin.
      rewrite Forall_forall in IH. now apply (IH (key, value)). }
    split; [apply parsesExclusive_of_body; [discriminate | exact Hbody]
           | exact Hbody].
Qed.

Lemma _parseQuery_exclusive query ctx e :
  _parseQuery host query ctx cfg = Ok e -> exclusive e = true.
Proof. apply exclusive_both. Qed.
End Exclusive.

(** ** Non-empty targets *)

Section NestedTargets.
Variable host : Host.
Variable cfg : Config.

(** Once created, [nestedExpressions] stays. *)
Lemma parseEntries_nested_kept entries : forall st st' o,
  parseEntries host cfg entries st = Ok st' ->
  lv_nestedExpressions st = Some o ->
  exists o', lv_nestedExpressions st' = Some o'.
Proof.
  induction entries as [|[key value] rest IH]; intros st st' o H Ho; simpl in H.
  - injection H as <-. eauto.
  - apply bind_Ok in H as (st1 & H1 & H2).
    apply processEntry_Ok in H1.
    destruct H1 as [[_ ->]|[(_ & _ & ->)|(pk & sub & _ & _ & Hp)]];
      [eapply IH; eauto .. |].
    apply place_Ok in Hp as [_ [(_ & Ho1 & _)|(_ & _ & _ & Ho1)]].
    + eapply IH; eauto.
    + rewrite <- Ho1 in Ho. eapply IH; eauto.
Qed.

(** The entries that follow leave a property alone unless one of them is
    accepted with that target key. *)
Lemma parseEntries_own_kept targetKey entries : forall st st' o,
  parseEntries host cfg entries st = Ok st' ->
  (forall key value pk,
     In (key, value) entries -> acceptedKey host cfg key = Some pk ->
     key_targetKey pk <> targetKey) ->
  lv_nestedExpressions st = Some o ->
  exists o', lv_nestedExpressions st' = Some o' /\ own o' targetKey = own o targetKey.
Proof.
  induction entries as [|[key value] rest IH]; intros st st' o H Hother Ho;
    simpl in H.
  - injection H as <-. eauto.
  - apply bind_Ok in H as (st1 & H1 & H2).
    assert (Hrest : forall key value pk,
              In (key, value) rest -> acceptedKey host cfg key = Some pk ->
              key_targetKey pk <> targetKey)
      by (intros k v pk Hin; apply (Hother k v pk); now right).
    apply processEntry_Ok in H1.
    destruct H1 as [[_ ->]|[(_ & _ & ->)|(pk & sub & Ha & _ & Hp)]];
      [eapply IH; eauto .. |].
    apply place_Ok in Hp as [_ [(_ & Ho1 & _)|(_ & _ & _ & Ho1)]].
    + destruct (IH st1 st' _ H2 Hrest Ho1) as (o' & Ho' & Hown).
      exists o'. split; [exact Ho'|]. rewrite Hown, Ho. simpl.
      apply own_assign_ne. apply (Hother key value pk); [now left | exact Ha].
    + rewrite <- Ho1 in Ho. eapply IH; eauto.
Qed.

(** The target keys of [nestedExpressions] are distinct. *)
Lemma parseEntries_NoDup entries : forall st st',
  parseEntries host cfg entries st = Ok st' ->
  NoDup (map fst (objectOf (lv_nestedExpressions st))) ->
  NoDup (map fst (objectOf (lv_nestedExpressions st'))).
Proof.
  induction entries as [|[key value] rest IH]; intros st st' H Hnd; simpl in H.
  - now injection H as <-.
  - apply bind_Ok in H as (st1 & H1 & H2).
    apply (IH st1 st' H2).
    apply processEntry_Ok in H1.
    destruct H1 as [[_ ->]|[(_ & _ & ->)|(pk & sub & _ & _ & Hp)]];
      [exact Hnd | exact Hnd |].
    apply place_Ok in Hp as [_ [(_ & Ho1 & _)|(_ & _ & _ & Ho1)]].
    + rewrite Ho1. simpl. now apply assign_NoDup.
    + now rewrite Ho1.
Qed.

(** After an accepted entry with a non-empty target, [nestedExpressions]
    exists, and it holds the child under the target key unless a later
    entry took the key. *)
Lemma parseEntries_nonempty_target pre key value post st st' pk :
  parseEntries host cfg (pre ++ (key, value) :: post) st = Ok st' ->
  acceptedKey host cfg key = Some pk ->
  key_targetKey pk <> "" ->
  exists sub o,
    _parseQuery host value (entryContext pk) cfg = Ok sub
    /\ lv_nestedExpressions st' = Some o
    /\ (key_targetKey pk <> "__proto__" ->
        (forall key' value' pk',
           In (key', value') post -> acceptedKey host cfg key' = Some pk' ->
           key_targetKey pk' <> key_targetKey pk) ->
        own o (key_targetKey pk) = Some sub).
Proof.
  intros H Ha Ht. rewrite parseEntries_middle in H.
  apply bind_Ok in H as (st1 & _ & H).
  apply bind_Ok in H as (st2 & H2 & H3).
  rewrite (processEntry_accepted host cfg key value _ st1 pk Ha) in H2.
  apply bind_Ok in H2 as (sub & Hsub & Hp).
  apply place_Ok in Hp as [_ [(_ & Ho & _)|(Hempty & _)]]; [|congruence].
  destruct (parseEntries_nested_kept post st2 st' _ H3 Ho) as (o' & Ho').
  exists sub, o'. split; [exact Hsub|]. split; [exact Ho'|].
  intros Hproto Hlater.
  destruct (parseEntries_own_kept (key_targetKey pk) post st2 st' _ H3 Hlater Ho)
    as (o'' & Ho'' & Hown).
  rewrite Ho' in Ho''. injection Ho'' as <-.
  rewrite Hown. now apply own_assign_eq.
Qed.
End NestedTargets.

(** C2. No node of an expression returned by [parseQuery] has both
    [nextExpression] and [nestedExpressions].  A level whose loop ends with
    both a child with an empty target and children under target keys fails
    with "Empty and non-empty targets found at the same level", and no
    mapping with an accepted entry of each kind is ever parsed; for instance
    [parseQuery({"a=>": true, b: true})] fails so. *)
Theorem next_nested_exclusive :
  (forall host options query e,
     parseQuery host query options = Ok e -> exclusive e = true)
  /\ (forall host cfg query ctx entries,
        levelEntries query = Some entries ->
        (forall st,
           parseEntries host cfg entries (startLevel query ctx) = Ok st ->
           lv_nextExpression st <> None -> lv_nestedExpressions st <> None ->
           _parseQuery host query ctx cfg = Err ConflictingTargets)
        /\ (forall k1 v1 pk1 k2 v2 pk2,
              In (k1, v1) entries -> In (k2, v2) entries ->
              acceptedKey host cfg k1 = Some pk1 -> key_targetKey pk1 = "" ->
              acceptedKey host cfg k2 = Some pk2 -> key_targetKey pk2 <> "" ->
              forall e, _parseQuery host query ctx cfg <> Ok e))
  /\ parseQuery standardHost
       (VObject [("a=>", VBool true); ("b", VBool true)]) noOptions =
     Err ConflictingTargets.
Proof.
  split; [|split; [|reflexivity]].
  - intros host options query e. rewrite parseQuery_eq.
    apply _parseQuery_exclusive.
  - intros host cfg query ctx entries Hentries.
    rewrite (_parseQuery_level host cfg query ctx _ Hentries). split.
    + intros st -> Hn Ho. simpl. unfold finishLevel.
      destruct (lv_nextExpression st); [|congruence].
      destruct (lv_nestedExpressions st); [reflexivity|congruence].
    + intros k1 v1 pk1 k2 v2 pk2 Hin1 Hin2 Ha1 Ht1 Ha2 Ht2 e He.
      apply bind_Ok in He as (st & Hst & Hfin).
      apply in_split in Hin1 as (pre1 & post1 & E1).
      apply in_split in Hin2 as (pre2 & post2 & E2).
      assert (Hn : exists n, lv_nextExpression st = Some n).
      { rewrite E1 in Hst.
        destruct (parseEntries_empty_target host cfg _ _ _ _ _ _ _ Hst Ha1 Ht1)
          as (sub & _ & Hn & _). eauto. }
      assert (Ho : exists o, lv_nestedExpressions st = Some o).
      { rewrite E2 in Hst.
        destruct (parseEntries_nonempty_target host cfg _ _ _ _ _ _ _ Hst Ha2 Ht2)
          as (sub & o & _ & Ho & _). eauto. }
      destruct Hn as [n Hn], Ho as [o Ho].
      unfold finishLevel in Hfin. rewrite Hn, Ho in Hfin. discriminate.
Qed.

Lemma next_nested_exclusive_witness :
  parseQuery standardHost
    (VObject [("movies=>actionMovies",
               VObject [("reverse=>", VArray [VObject [("title", VBool true)]])])])
    noOptions =
  Ok (set_nestedExpressions
        [("actionMovies",
          set_nextExpression
            (set_useCollectionElements
               (set_nestedExpressions [("title", leaf "title" false)]
                  (leaf "reverse" false)))
            (leaf "movies" false))]
        (leaf "" false))
  /\ exclusive
       (set_nestedExpressions
          [("actionMovies",
            set_nextExpression
              (set_useCollectionElements
                 (set_nestedExpressions [("title", leaf "title" false)]
                    (leaf "reverse" false)))
              (leaf "movies" false))]
          (leaf "" false)) = true
  /\ _parseQuery standardHost (VObject [("a=>", VBool true); ("b", VBool true)])
       rootContext (configOf noOptions) = Err ConflictingTargets.
Proof.
  destruct next_nested_exclusive as (H1 & H2 & _).
  split; [reflexivity|]. split.
  - apply (H1 standardHost noOptions
             (VObject [("movies=>actionMovies",
                        VObject [("reverse=>",
                                  VArray [VObject [("title", VBool true)]])])])).
    reflexivity.
  - destruct (H2 standardHost (configOf noOptions)
                (VObject [("a=>", VBool true); ("b", VBool true)]) rootContext
                [("a=>", VBool true); ("b", VBool true)] eq_refl) as [H _].
    apply (H (mkLevel (leaf "" false) (Some [("b", leaf "b" false)])
                (Some (leaf "a" false)))); [reflexivity | discriminate | discriminate].
Defined.

(** ** Coverage *)

(** C1, as stated, fails: in [{"a=>x": true, "b=>x": [true]}] both entries
    are accepted and the call succeeds, but the child of the first entry is
    not in the result; [nestedExpressions.x] is the child of the second. *)
Lemma coverage_counterexample :
  exists e,
    parseQuery standardHost
      (VObject [("a=>x", VBool true); ("b=>x", VArray [VBool true])]) noOptions = Ok e
    /\ acceptedKey standardHost (configOf noOptions) "a=>x" =
         Some (mkParsedKey "a" "x" false)
    /\ acceptedKey standardHost (configOf noOptions) "b=>x" =
         Some (mkParsedKey "b" "x" false)
    /\ ~ appears standardHost (configOf noOptions) e "a=>x" (VBool true).
Proof.
  exists (set_nestedExpressions
            [("x", set_useCollectionElements (leaf "b" false))] (leaf "" false)).
  split; [vm_compute; reflexivity|]. split; [vm_compute; reflexivity|].
  split; [vm_compute; reflexivity|].
  intros (pk & sub & Ha & Hsub & H).
  vm_compute in Ha. injection Ha as <-.
  vm_compute in Hsub. injection Hsub as <-.
  vm_compute in H. destruct H as (o & [= <-] & Hown).
  vm_compute in Hown. discriminate.
Qed.

(** C1, amended.  In a successful parse, every accepted entry of a mapping
    appears in the expression of its level: as [nextExpression] when its
    target key is empty, and as the property of [nestedExpressions] under
    its target key when that key is not empty, is not ["__proto__"], and is
    not the target key of a later accepted entry of the mapping (which would
    replace it).  [nestedExpressions] has each target key once.  The
    statement is about every call of [_parseQuery], hence about every level
    of a query: [parseQuery query options] is
    [_parseQuery query rootContext (configOf options)], and the child of an
    entry is the result of the call on its value. *)
Theorem accepted_entries_covered host cfg query ctx entries e :
  levelEntries query = Some entries ->
  _parseQuery host query ctx cfg = Ok e ->
  (forall pre key value post pk,
     entries = pre ++ (key, value) :: post ->
     acceptedKey host cfg key = Some pk ->
     key_targetKey pk = ""
     \/ (key_targetKey pk <> "__proto__"
         /\ forall key' value' pk',
              In (key', value') post -> acceptedKey host cfg key' = Some pk' ->
              key_targetKey pk' <> key_targetKey pk) ->
     appears host cfg e key value)
  /\ (forall o, nestedExpressions e = Some o -> NoDup (map fst o)).
Proof.
  intros Hentries He.
  rewrite (_parseQuery_level host cfg query ctx _ Hentries) in He.
  apply bind_Ok in He as (st & Hst & Hfin).
  pose proof (parseEntries_expression host cfg _ _ _ Hst) as (_ & _ & _ & Hn0 & Ho0).
  assert (Hstart : nextExpression (lv_expression st) = None
                   /\ nestedExpressions (lv_expression st) = None).
  { rewrite Hn0, Ho0. unfold startLevel, levelExpression. simpl.
    now destruct query as [| | | | |[|? [|]]|]. }
  destruct Hstart as [Hn1 Ho1].
  apply finishLevel_Ok in Hfin as (_ & _ & _ & _ & Hfin).
  split.
  - intros pre key value post pk -> Ha Hcase. unfold appears.
    destruct (String.eqb_spec (key_targetKey pk) "") as [Ht|Ht].
    + destruct (parseEntries_empty_target host cfg _ _ _ _ _ _ _ Hst Ha Ht)
        as (sub & Hsub & Hn & _).
      exists pk, sub. split; [exact Ha|]. split; [exact Hsub|].
      apply String.eqb_eq in Ht. rewrite Ht.
      destruct Hfin as [(_ & Hn' & _)|[(n & Hn' & _ & He1 & _)|(o & _ & Hn' & _)]];
        congruence.
    + destruct Hcase as [Hempty|[Hproto Hlater]]; [contradiction|].
      destruct (parseEntries_nonempty_target host cfg _ _ _ _ _ _ _ Hst Ha Ht)
        as (sub & o & Hsub & Ho & Hown).
      exists pk, sub. split; [exact Ha|]. split; [exact Hsub|].
      apply String.eqb_neq in Ht. rewrite Ht. exists o.
      split; [|now apply Hown].
      destruct Hfin as [(Ho' & _)|[(n & _ & Ho' & _)|(o' & Ho' & _ & He1 & _)]];
        congruence.
  - intros o Ho.
    apply parseEntries_NoDup in Hst; [|constructor].
    destruct Hfin as [(_ & _ & ->)|[(n & _ & _ & _ & He2)|(o' & Ho' & _ & He1 & _)]].
    + congruence.
    + congruence.
    + rewrite Ho' in Hst. simpl in Hst. congruence.
Qed.

Lemma accepted_entries_covered_witness :
  levelEntries
    (VObject [("movies=>actionMovies", VArray [VBool true]);
              ("movies=>dramaMovies", VBool true)]) =
  Some [("movies=>actionMovies", VArray [VBool true]);
        ("movies=>dramaMovies", VBool true)]
  /\ appears standardHost (configOf noOptions)
       (set_nestedExpressions
          [("actionMovies", set_useCollectionElements (leaf "movies" false));
           ("dramaMovies", leaf "movies" false)]
          (leaf "" false))
       "movies=>actionMovies" (VArray [VBool true]).
Proof.
  split; [reflexivity|].
  destruct (accepted_entries_covered standardHost (configOf noOptions)
              (VObject [("movies=>actionMovies", VArray [VBool true]);
                        ("movies=>dramaMovies", VBool true)])
              rootContext
              [("movies=>actionMovies", VArray [VBool true]);
               ("movies=>dramaMovies", VBool true)]
              (set_nestedExpressions
                 [("actionMovies", set_useCollectionElements (leaf "movies" false));
                  ("dramaMovies", leaf "movies" false)]
                 (leaf "" false))
              eq_refl eq_refl) as [H _].
  apply (H [] "movies=>actionMovies" (VArray [VBool true])
           [("movies=>dramaMovies", VBool true)]
           (mkParsedKey "movies" "actionMovies" false) eq_refl eq_refl).
  right. split; [discriminate|].
  intros key' value' pk' [[= <- <-]|[]] Ha.
  vm_compute in Ha. injection Ha as <-. discriminate.
Defined.

(** ** Arrays inside arrays *)

(** C7, on the code: the length of an array is tested only where
    [_parseQuery] is entered (line 72).  The element of a one-element array
    is not tested: an array with no element, or with two, in that place is
    accepted and read as a mapping with the keys ["0"], ["1"], ...;
    [parseQuery([[true, true]])], [parseQuery([[]])] and
    [parseQuery({movies: [[]]})] return expressions. *)
Theorem nested_array_length_unchecked :
  parseQuery standardHost (VArray [VArray [VBool true; VBool true]]) noOptions =
    Ok (mkExpression "" false true None None
          (Some [("0", mkExpression "0" false false None None None);
                 ("1", mkExpression "1" false false None None None)]))
  /\ (forall host,
        parseQuery host (VArray [VArray []]) noOptions =
        Ok (mkExpression "" false true None None None))
  /\ parseQuery standardHost (VObject [("movies", VArray [VArray []])]) noOptions =
     Ok (mkExpression "" false false None None
           (Some [("movies", mkExpression "movies" false true None None None)])).
Proof. repeat split; reflexivity. Qed.

(** ** Ignored and accepted keys, from the options *)

Lemma accepted_entry_appears host cfg query ctx entries e pre key value post pk :
  levelEntries query = Some entries ->
  _parseQuery host query ctx cfg = Ok e ->
  entries = pre ++ (key, value) :: post ->
  acceptedKey host cfg key = Some pk ->
  key_targetKey pk = ""
  \/ (key_targetKey pk <> "__proto__"
      /\ forall key' value' pk',
           In (key', value') post -> acceptedKey host cfg key' = Some pk' ->
           key_targetKey pk' <> key_targetKey pk) ->
  appears host cfg e key value.
Proof.
  intros Hentries He -> Ha Hcase.
  rewrite (_parseQuery_level host cfg query ctx _ Hentries) in He.
  apply bind_Ok in He as (st & Hst & Hfin).
  apply finishLevel_Ok in Hfin as (_ & _ & _ & _ & Hfin).
  unfold appears.
  destruct (String.eqb_spec (key_targetKey pk) "") as [Ht|Ht].
  - destruct (parseEntries_empty_target host cfg _ _ _ _ _ _ _ Hst Ha Ht)
      as (sub & Hsub & Hn & _).
    exists pk, sub. split; [exact Ha|]. split; [exact Hsub|].
    apply String.eqb_eq in Ht. rewrite Ht.
    destruct Hfin as [(_ & Hn' & _)|[(n & Hn' & _ & He1 & _)|(o & _ & Hn' & _)]];
      congruence.
  - destruct Hcase as [Hempty|[Hproto Hlater]]; [contradiction|].
    destruct (parseEntries_nonempty_target host cfg _ _ _ _ _ _ _ Hst Ha Ht)
      as (sub & o & Hsub & Ho & Hown).
    exists pk, sub. split; [exact Ha|]. split; [exact Hsub|].
    apply String.eqb_neq in Ht. rewrite Ht. exists o.
    split; [|now apply Hown].
    destruct Hfin as [(Ho' & _)|[(n & _ & Ho' & _)|(o' & Ho' & _ & He1 & _)]];
      congruence.
Qed.

(** C9, as stated, fails: with [ignoreKeys] and [acceptKeys] both
    ["toString"] the entry [toString: true] matches a matcher of each list,
    and it is not parsed; the test on built-in keys (line 98) has skipped it
    before the two lists are looked at, and the result has no child. *)
Lemma accept_override_counterexample :
  parseKey "toString" = Ok (mkParsedKey "toString" "toString" false)
  /\ testKey "toString"
       (toArray (opt_ignoreKeys
                   (mkOptions (Some (OneMatcher (PString "toString")))
                      (Some (OneMatcher (PString "toString"))) None))) = true
  /\ testKey "toString"
       (toArray (opt_acceptKeys
                   (mkOptions (Some (OneMatcher (PString "toString")))
                      (Some (OneMatcher (PString "toString"))) None))) = true
  /\ parseQuery standardHost (VObject [("toString", VBool true)])
       (mkOptions (Some (OneMatcher (PString "toString")))
          (Some (OneMatcher (PString "toString"))) None) =
     Ok (mkExpression "" false false None None None)
  /\ ~ appears standardHost
         (configOf (mkOptions (Some (OneMatcher (PString "toString")))
                      (Some (OneMatcher (PString "toString"))) None))
         (mkExpression "" false false None None None) "toString" (VBool true).
Proof.
  split; [reflexivity|]. split; [reflexivity|]. split; [reflexivity|].
  split; [vm_compute; reflexivity|].
  intros (pk & sub & Ha & _). vm_compute in Ha. discriminate.
Qed.

(** C9, amended.  The options are the ones given to [parseQuery].  An entry
    whose key parses to a source key that matches a matcher of [ignoreKeys]
    and none of [acceptKeys] is skipped: the result is the one of the
    mapping without the entry.  When the source key matches a matcher of
    [acceptKeys], and the entry is not skipped as a built-in key, the entry
    is parsed whatever [ignoreKeys] holds: it reaches the recursive call,
    its child is placed, and in every successful parse it appears in the
    expression of its level as any accepted entry does.  A matcher matches
    by string equality or by its [test]; an option that is a single matcher
    stands for the array holding it. *)
Theorem ignore_accept_filters host options key value pk :
  key <> "()" ->
  parseKey key = Ok pk ->
  (testKey (key_sourceKey pk) (toArray (opt_ignoreKeys options)) = true ->
   testKey (key_sourceKey pk) (toArray (opt_acceptKeys options)) = false ->
   (forall collection pre post,
      parseQuery host (asQuery collection (VObject (pre ++ (key, value) :: post)))
        options =
      parseQuery host (asQuery collection (VObject (pre ++ post))) options)
   /\ (forall collection pre post ctx,
         _parseQuery host (asQuery collection (VObject (pre ++ (key, value) :: post)))
           ctx (configOf options) =
         _parseQuery host (asQuery collection (VObject (pre ++ post)))
           ctx (configOf options)))
  /\ (testKey (key_sourceKey pk) (toArray (opt_acceptKeys options)) = true ->
      opt_ignoreBuiltInKeys options = Some false
      \/ includes (builtInKeys host) (key_sourceKey pk) = false ->
      acceptedKey host (configOf options) key = Some pk
      /\ (forall st,
            processEntry host (configOf options) (_parseQuery host value)
              key value st =
            (let* sub := _parseQuery host value (entryContext pk) (configOf options) in
             place (key_targetKey pk) sub st))
      /\ (forall query ctx entries e pre post,
            levelEntries query = Some entries ->
            _parseQuery host query ctx (configOf options) = Ok e ->
            entries = pre ++ (key, value) :: post ->
            key_targetKey pk = ""
            \/ (key_targetKey pk <> "__proto__"
                /\ forall key' value' pk',
                     In (key', value') post ->
                     acceptedKey host (configOf options) key' = Some pk' ->
                     key_targetKey pk' <> key_targetKey pk) ->
            appears host (configOf options) e key value))
  /\ (forall patterns,
        testKey (key_sourceKey pk) patterns = true <->
        exists p, In p patterns /\ matches p (key_sourceKey pk))
  /\ (forall query p others b,
        parseQuery host query (mkOptions (Some (OneMatcher p)) others b) =
        parseQuery host query (mkOptions (Some (ManyMatchers [p])) others b)
        /\ parseQuery host query (mkOptions others (Some (OneMatcher p)) b) =
           parseQuery host query (mkOptions others (Some (ManyMatchers [p])) b)).
Proof.
  intros Hk Hpk. split; [|split; [|split; [apply testKey_matches|]]].
  - intros Hi Hacc.
    assert (Ha : acceptedKey host (configOf options) key = None).
    { unfold acceptedKey. apply String.eqb_neq in Hk. rewrite Hk, Hpk.
      change (ignoreKeys (configOf options)) with (toArray (opt_ignoreKeys options)).
      change (acceptKeys (configOf options)) with (toArray (opt_acceptKeys options)).
      rewrite Hi, Hacc.
      now destruct (ignoreBuiltInKeys (configOf options)
                    && includes (builtInKeys host) (key_sourceKey pk)). }
    split.
    + intros collection pre post. rewrite !parseQuery_eq.
      now apply (skipped_entry_removed host (configOf options) key value pk).
    + now apply (skipped_entry_removed host (configOf options) key value pk).
  - intros Hacc Hb.
    assert (Ha : acceptedKey host (configOf options) key = Some pk).
    { unfold acceptedKey. apply String.eqb_neq in Hk. rewrite Hk, Hpk.
      assert (Hb' : ignoreBuiltInKeys (configOf options)
                    && includes (builtInKeys host) (key_sourceKey pk) = false).
      { destruct Hb as [Hb|Hb]; [unfold configOf; simpl; now rewrite Hb|].
        rewrite Hb. apply andb_false_r. }
      rewrite Hb'.
      change (acceptKeys (configOf options)) with (toArray (opt_acceptKeys options)).
      rewrite Hacc. now rewrite andb_false_r. }
    split; [exact Ha|]. split.
    + intros st. now apply processEntry_accepted.
    + intros query ctx entries e pre post Hentries He E Hcase.
      exact (accepted_entry_appears host (configOf options) query ctx entries e
               pre key value post pk Hentries He E Ha Hcase).
  - intros query p others b. split; reflexivity.
Qed.

Lemma ignore_accept_filters_witness :
  "secret" <> "()"
  /\ parseKey "secret" = Ok (mkParsedKey "secret" "secret" false)
  /\ parseQuery standardHost
       (VObject [("title", VBool true); ("secret", VNumber 0)])
       (mkOptions (Some (OneMatcher (PString "secret"))) None None) =
     Ok (mkExpression "" false false None None
           (Some [("title", mkExpression "title" false false None None None)]))
  /\ parseQuery standardHost
       (VObject [("title", VBool true); ("secret", VBool true)])
       (mkOptions (Some (OneMatcher (PString "secret")))
          (Some (OneMatcher (PRegExp (String.prefix "sec")))) None) =
     Ok (mkExpression "" false false None None
           (Some [("title", mkExpression "title" false false None None None);
                  ("secret", mkExpression "secret" false false None None None)]))
  /\ appears standardHost
       (configOf (mkOptions (Some (OneMatcher (PString "secret")))
                    (Some (OneMatcher (PRegExp (String.prefix "sec")))) None))
       (mkExpression "" false false None None
          (Some [("title", mkExpression "title" false false None None None);
                 ("secret", mkExpression "secret" false false None None None)]))
       "secret" (VBool true).
Proof.
  split; [discriminate|]. split; [reflexivity|]. split; [|split].
  - destruct (ignore_accept_filters standardHost
                (mkOptions (Some (OneMatcher (PString "secret"))) None None)
                "secret" (VNumber 0) (mkParsedKey "secret" "secret" false))
      as (H & _); [discriminate | reflexivity |].
    destruct (H eq_refl eq_refl) as [H' _].
    eapply eq_trans; [exact (H' false [("title", VBool true)] [])|].
    vm_compute; reflexivity.
  - vm_compute; reflexivity.
  - destruct (ignore_accept_filters standardHost
                (mkOptions (Some (OneMatcher (PString "secret")))
                   (Some (OneMatcher (PRegExp (String.prefix "sec")))) None)
                "secret" (VBool true) (mkParsedKey "secret" "secret" false))
      as (_ & H & _); [discriminate | reflexivity |].
    destruct (H eq_refl (or_intror eq_refl)) as (_ & _ & H').
    apply (H' (VObject [("title", VBool true); ("secret", VBool true)]) rootContext
              [("title", VBool true); ("secret", VBool true)] _
              [("title", VBool true)] []);
      [reflexivity | vm_compute; reflexivity | reflexivity |].
    right. split; [discriminate | intros ? ? ? []].
Defined.

(** * Further properties *)

(** ** Splitting a key *)

Lemma split_arrow_separator rest :
  split_arrow (String "=" (String ">" rest)) = "" :: split_arrow rest.
Proof. reflexivity. Qed.

Lemma split_arrow_character c rest :
  c <> "="%char \/ (forall r, rest <> String ">" r) ->
  split_arrow (String c rest) =
  match split_arrow rest with
  | part :: parts => String c part :: parts
  | [] => [String c ""]
  end.
Proof.
  intros H.
  destruct c as [[] [] [] [] [] [] [] []]; try reflexivity.
  destruct rest as [|d r]; [reflexivity|].
  destruct d as [[] [] [] [] [] [] [] []]; try reflexivity.
  destruct H as [H|H]; [now contradiction H | now contradiction (H r)].
Qed.

(** Induction along the scan of [split_arrow]. *)
Lemma split_arrow_scan (P : string -> Prop) :
  P "" ->
  (forall rest, P rest -> P (String "=" (String ">" rest))) ->
  (forall c rest,
     c <> "="%char \/ (forall r, rest <> String ">" r) ->
     P rest -> P (String c rest)) ->
  forall s, P s.
Proof.
  intros Hempty Hsep Hchar s.
  assert (H : forall n s, String.length s <= n -> P s).
  { induction n as [|n IH]; intros [|c rest] Hlen; simpl in Hlen;
      try exact Hempty; try lia.
    destruct (Ascii.eqb_spec c "=") as [->|Hc].
    - destruct rest as [|d r].
      + apply Hchar; [right; discriminate | exact Hempty].
      + destruct (Ascii.eqb_spec d ">") as [->|Hd].
        * apply Hsep, IH. simpl in Hlen. lia.
        * apply Hchar; [right; congruence | apply IH; lia].
    - apply Hchar; [now left | apply IH; lia]. }
  apply (H (String.length s)). lia.
Qed.

Lemma split_arrow_nonempty s : split_arrow s <> [].
Proof.
  induction s as [|rest IH|c rest Hc IH] using split_arrow_scan.
  - discriminate.
  - discriminate.
  - rewrite (split_arrow_character c rest Hc). now destruct (split_arrow rest).
Qed.

Lemma concat_cons_character sep c part parts :
  String.concat sep (String c part :: parts) = String c (String.concat sep (part :: parts)).
Proof. now destruct parts. Qed.

(** Joining the pieces with the separator gives the key back. *)
Lemma concat_split_arrow s : String.concat "=>" (split_arrow s) = s.
Proof.
  induction s as [|rest IH|c rest Hc IH] using split_arrow_scan.
  - reflexivity.
  - rewrite split_arrow_separator.
    pose proof (split_arrow_nonempty rest) as Hne.
    destruct (split_arrow rest) as [|part parts]; [now contradiction Hne|].
    simpl in *. now rewrite IH.
  - rewrite (split_arrow_character c rest Hc).
    pose proof (split_arrow_nonempty rest) as Hne.
    destruct (split_arrow rest) as [|part parts]; [now contradiction Hne|].
    now rewrite concat_cons_character, IH.
Qed.

Lemma append_assoc (a b c : string) : ((a ++ b) ++ c = a ++ (b ++ c))%string.
Proof. induction a as [|x a IH]; simpl; [reflexivity | now rewrite IH]. Qed.

(** A separator written in a key is found by the scan. *)
Lemma split_arrow_append (a r : string) :
  split_arrow (a ++ "=>" ++ r)%string = split_arrow a ++ split_arrow r.
Proof.
  induction a as [|rest IH|c rest Hc IH] using split_arrow_scan.
  - reflexivity.
  - change (String "=" (String ">" rest) ++ "=>" ++ r)%string
      with (String "=" (String ">" (rest ++ "=>" ++ r)%string)).
    now rewrite !split_arrow_separator, IH.
  - change (String c rest ++ "=>" ++ r)%string
      with (String c (rest ++ "=>" ++ r)%string).
    rewrite split_arrow_character.
    + rewrite IH, (split_arrow_character c rest Hc).
      pose proof (split_arrow_nonempty rest) as Hne.
      now destruct (split_arrow rest).
    + destruct Hc as [Hc|Hc]; [now left|right].
      intros r' E. destruct rest as [|d x]; simpl in E; [discriminate|].
      injection E as -> _. now contradiction (Hc x).
Qed.

Lemma substring_split s : forall k,
  k <= String.length s ->
  (substring 0 k s ++ substring k (String.length s - k) s)%string = s.
Proof.
  induction s as [|c s IH]; intros [|k] Hk; simpl in *; try lia.
  - reflexivity.
  - now rewrite substring_all.
  - rewrite IH by lia. reflexivity.
Qed.

Lemma parseSourceKey_raw s source optional :
  parseSourceKey s = (source, optional) ->
  s = (source ++ (if optional then "?" else ""))%string.
Proof.
  unfold parseSourceKey, endsWith, slice_0_m1. simpl String.length.
  destruct (Nat.leb 1 (String.length s)) eqn:Hlen; simpl.
  - apply Nat.leb_le in Hlen.
    destruct (String.eqb_spec (substring (String.length s - 1) 1 s) "?") as [E|_].
    + intros [= <- <-].
      pose proof (substring_split s (String.length s - 1)) as H.
      replace (String.length s - (String.length s - 1)) with 1 in H by lia.
      rewrite E in H. symmetry. apply H. lia.
    + intros [= <- <-]. clear. induction s; simpl; congruence.
  - intros [= <- <-]. clear. induction s; simpl; congruence.
Qed.

(** ** What [parseKey] keeps of a key *)

(** X1. A key that parses is spelled by its parts: it is its source part
    (the source key, with the optional marker when [isOptional] is set),
    alone when the target key is the source key, or followed by the
    separator and the target key. *)
Theorem parseKey_spelling key pk :
  parseKey key = Ok pk ->
  (key = rawSource pk /\ key_targetKey pk = key_sourceKey pk)
  \/ key = (rawSource pk ++ "=>" ++ key_targetKey pk)%string.
Proof.
  unfold parseKey, rawSource. intros H.
  pose proof (concat_split_arrow key) as Hkey.
  destruct (split_arrow key) as [|part0 [|part1 [|]]]; try discriminate;
    destruct (parseSourceKey part0) as [source optional] eqn:Hsource;
    apply parseSourceKey_raw in Hsource; injection H as <-; simpl in *.
  - left. split; [congruence | reflexivity].
  - right. congruence.
Qed.

Lemma parseKey_spelling_witness :
  parseKey "rating?=>score" = Ok (mkParsedKey "rating" "score" true)
  /\ ((("rating?=>score" = rawSource (mkParsedKey "rating" "score" true)
        /\ "score" = "rating")
       \/ "rating?=>score" =
          (rawSource (mkParsedKey "rating" "score" true) ++ "=>" ++ "score")%string)).
Proof.
  split; [reflexivity|].
  exact (parseKey_spelling "rating?=>score" (mkParsedKey "rating" "score" true)
           eq_refl).
Defined.

Lemma parseKey_invalid_aux key :
  ((exists a b c : string, key = (a ++ "=>" ++ b ++ "=>" ++ c)%string) <->
   parseKey key = Err (InvalidKeySyntax key))
  /\ (forall e, parseKey key = Err e -> e = InvalidKeySyntax key).
Proof.
  assert (Herr : forall e, parseKey key = Err e -> e = InvalidKeySyntax key).
  { unfold parseKey. intros e.
    destruct (split_arrow key) as [|part0 [|part1 [|]]];
      try destruct (parseSourceKey part0); congruence. }
  split; [split|exact Herr].
  - intros (a & b & c & ->).
    unfold parseKey. rewrite !split_arrow_append.
    pose proof (split_arrow_nonempty a) as Ha.
    pose proof (split_arrow_nonempty b) as Hb.
    pose proof (split_arrow_nonempty c) as Hc.
    destruct (split_arrow a) as [|a0 [|a1 la]]; [now contradiction Ha | |];
      destruct (split_arrow b) as [|b0 [|b1 lb]]; try (now contradiction Hb);
      destruct (split_arrow c) as [|c0 lc]; try (now contradiction Hc);
      simpl; try reflexivity; now destruct la.
  - unfold parseKey. intros H.
    pose proof (concat_split_arrow key) as Hkey.
    pose proof (split_arrow_nonempty key) as Hne.
    destruct (split_arrow key) as [|part0 [|part1 [|part2 parts]]];
      try (destruct (parseSourceKey part0); discriminate).
    + now contradiction Hne.
    + exists part0, part1, (String.concat "=>" (part2 :: parts)).
      rewrite <- Hkey. reflexivity.
Qed.

(** X2. [parseKey] fails exactly on the keys in which the separator is
    written twice or more, and the error then holds the whole key. *)
Theorem parseKey_invalid key :
  ((exists a b c : string, key = (a ++ "=>" ++ b ++ "=>" ++ c)%string) <->
   parseKey key = Err (InvalidKeySyntax key))
  /\ (forall e, parseKey key = Err e -> e = InvalidKeySyntax key).
Proof. exact (parseKey_invalid_aux key). Qed.

Lemma parseKey_invalid_witness :
  (exists a b c : string, "a=>b=>c" = (a ++ "=>" ++ b ++ "=>" ++ c)%string)
  /\ parseKey "a=>b=>c" = Err (InvalidKeySyntax "a=>b=>c").
Proof.
  assert (H : exists a b c : string, "a=>b=>c" = (a ++ "=>" ++ b ++ "=>" ++ c)%string)
    by (exists "a", "b", "c"; reflexivity).
  split; [exact H|].
  exact (proj1 (proj1 (parseKey_invalid "a=>b=>c")) H).
Defined.

(** X3. A key with two separators makes the whole call fail with "Invalid
    key found", whatever the options are: the key is parsed before any of
    the tests that skip entries.  This is for an entry the parser gets to
    (the entries before it parse), at any depth. *)
Theorem invalid_key_aborts host options root query ctx entries pre key value post st :
  Visits host (configOf options) root rootContext query ctx ->
  levelEntries query = Some entries ->
  entries = pre ++ (key, value) :: post ->
  parseEntries host (configOf options) pre (startLevel query ctx) = Ok st ->
  (exists a b c : string, key = (a ++ "=>" ++ b ++ "=>" ++ c)%string) ->
  parseQuery host root options = Err (InvalidKeySyntax key).
Proof.
  intros Hvisits Hentries -> Hpre Hkey.
  apply (proj1 (parseKey_invalid_aux key)) in Hkey.
  rewrite parseQuery_eq. eapply visited_error; [exact Hvisits|].
  rewrite (_parseQuery_level host _ query ctx _ Hentries).
  rewrite parseEntries_middle, Hpre. simpl.
  unfold processEntry.
  destruct (String.eqb_spec key "()") as [->|_]; [discriminate Hkey|].
  now rewrite Hkey.
Qed.

Lemma invalid_key_aborts_witness :
  parseQuery standardHost
    (VObject [("movies", VObject [("a=>b=>c", VNumber 0)])])
    (mkOptions (Some (OneMatcher (PString "a"))) None None) =
  Err (InvalidKeySyntax "a=>b=>c").
Proof.
  apply (invalid_key_aborts standardHost
           (mkOptions (Some (OneMatcher (PString "a"))) None None)
           (VObject [("movies", VObject [("a=>b=>c", VNumber 0)])])
           (VObject [("a=>b=>c", VNumber 0)]) (mkContext (Some "movies") false)
           [("a=>b=>c", VNumber 0)] [] "a=>b=>c" (VNumber 0) []
           (mkLevel (leaf "movies" false) None None)).
  - eapply (Visits_entry standardHost _ _ _ _ [] "movies" _ []);
      [reflexivity | reflexivity | reflexivity | vm_compute; reflexivity
      | apply Visits_here].
  - reflexivity.
  - reflexivity.
  - reflexivity.
  - exists "a", "b", "c". reflexivity.
Defined.

(** ** The fields of an expression *)

Lemma parseBody_fields host cfg expression query e :
  parseBody host cfg expression query = Ok e ->
  sourceKey e = sourceKey expression /\ isOptional e = isOptional expression.
Proof.
  unfold parseBody. intros H.
  assert (Hlevel : forall entries,
    (let* st := parseEntries host cfg entries (mkLevel expression None None) in
     finishLevel st) = Ok e ->
    sourceKey e = sourceKey expression /\ isOptional e = isOptional expression).
  { intros entries He. apply bind_Ok in He as (st & Hst & Hfin).
    apply parseEntries_expression in Hst as (Hs & Hi & _).
    apply finishLevel_Ok in Hfin as (Hs' & Hi' & _). simpl in Hs, Hi.
    split; congruence. }
  destruct query as [| |[|] |n|s|items|entries]; simpl in H;
    try discriminate; eauto.
  injection H as <-. auto.
Qed.

Lemma _parseQuery_fields host cfg query ctx e :
  _parseQuery host query ctx cfg = Ok e ->
  sourceKey e = sourceKey (newExpression ctx)
  /\ isOptional e = isOptional (newExpression ctx).
Proof.
  rewrite _parseQuery_unfold. intros H.
  destruct query as [| |b|n|s|items|entries]; try discriminate;
    try (now apply parseBody_fields in H).
  destruct items as [|item [|]]; try discriminate.
  now apply parseBody_fields in H.
Qed.

(** X4. The expression returned for a query carries the source key and the
    optional flag of the context it was parsed in: the root of a result of
    [parseQuery] has the empty source key and is not optional, and the
    child parsed for an entry has the source key and the flag of the parsed
    key, whatever the value of the entry holds. *)
Theorem expression_names_its_source host options query e :
  parseQuery host query options = Ok e ->
  (sourceKey e = "" /\ isOptional e = false)
  /\ (forall value pk c,
        _parseQuery host value (entryContext pk) (configOf options) = Ok c ->
        sourceKey c = key_sourceKey pk /\ isOptional c = key_isOptional pk).
Proof.
  rewrite parseQuery_eq. intros H. split.
  - now apply _parseQuery_fields in H.
  - intros value pk c Hc. now apply _parseQuery_fields in Hc.
Qed.

Lemma expression_names_its_source_witness :
  parseQuery standardHost (VObject [("rating?=>score", VArray [VBool true])])
    noOptions =
  Ok (set_nestedExpressions
        [("score", set_useCollectionElements (leaf "rating" true))] (leaf "" false))
  /\ sourceKey
       (set_nestedExpressions
          [("score", set_useCollectionElements (leaf "rating" true))]
          (leaf "" false)) = ""
  /\ sourceKey (set_useCollectionElements (leaf "rating" true)) = "rating".
Proof.
  split; [reflexivity|].
  destruct (expression_names_its_source standardHost noOptions
              (VObject [("rating?=>score", VArray [VBool true])])
              (set_nestedExpressions
                 [("score", set_useCollectionElements (leaf "rating" true))]
                 (leaf "" false)) eq_refl) as [[H1 _] H2].
  split; [exact H1|].
  exact (proj1 (H2 (VArray [VBool true]) (mkParsedKey "rating" "score" true)
                  (set_useCollectionElements (leaf "rating" true)) eq_refl)).
Defined.

(** ** Parameters *)

Lemma parseEntries_params host cfg entries : forall st st',
  parseEntries host cfg entries st = Ok st' ->
  params (lv_expression st') =
  fold_left (fun acc kv => if String.eqb (fst kv) "()" then Some (snd kv) else acc)
    entries (params (lv_expression st)).
Proof.
  induction entries as [|[key value] rest IH]; intros st st' H; simpl in H.
  - now injection H as <-.
  - apply bind_Ok in H as (st1 & H1 & H2).
    rewrite (IH _ _ H2). simpl. f_equal.
    apply processEntry_Ok in H1.
    destruct H1 as [[-> ->]|[(Hk & _ & ->)|(pk & sub & Ha & _ & Hp)]].
    + reflexivity.
    + apply String.eqb_neq in Hk. now rewrite Hk.
    + apply place_Ok in Hp as [-> _].
      destruct (String.eqb_spec key "()") as [->|_]; [discriminate Ha|reflexivity].
Qed.

(** X5. [params] of a parsed mapping is the value of its entry ["()"], the
    last one if the entries hold several, and is left unset when there is
    none: nothing else sets it. *)
Theorem params_from_marker_only host cfg query ctx entries e :
  levelEntries query = Some entries ->
  _parseQuery host query ctx cfg = Ok e ->
  params e = lastParams entries.
Proof.
  intros Hentries He.
  rewrite (_parseQuery_level host cfg query ctx _ Hentries) in He.
  apply bind_Ok in He as (st & Hst & Hfin).
  apply parseEntries_params in Hst.
  apply finishLevel_Ok in Hfin as (_ & _ & _ & Hp & _).
  rewrite Hp, Hst. unfold lastParams, startLevel, levelExpression. simpl.
  now destruct query as [| | | | |[|? [|]]|].
Qed.

Lemma params_from_marker_only_witness :
  levelEntries (VArray [VObject [("title", VBool true)]]) =
    Some [("title", VBool true)]
  /\ params
       (set_useCollectionElements
          (set_nestedExpressions [("title", leaf "title" false)]
             (leaf "movies" false))) = None.
Proof.
  split; [reflexivity|].
  exact (params_from_marker_only standardHost (configOf noOptions)
           (VArray [VObject [("title", VBool true)]])
           (mkContext (Some "movies") false) [("title", VBool true)]
           (set_useCollectionElements
              (set_nestedExpressions [("title", leaf "title" false)]
                 (leaf "movies" false)))
           eq_refl eq_refl).
Defined.

(** ** Where the children come from *)

Lemma assign_In {A} (o : list (string * A)) k x k' y :
  In (k', y) (assign o k x) ->
  (k' = k /\ y = x /\ k <> "__proto__") \/ In (k', y) o.
Proof.
  unfold assign. destruct (String.eqb_spec k "__proto__") as [_|Hk]; [auto|].
  induction o as [|[k0 z] o IH]; simpl.
  - intros [[= <- <-]|[]]. auto.
  - destruct (String.eqb_spec k0 k) as [->|_]; simpl.
    + intros [[= <- <-]|H]; auto.
    + intros [H|H]; [auto | destruct (IH H) as [?|?]; auto].
Qed.

Section Children.
Variable host : Host.
Variable cfg : Config.
Variable all : list (string * value).

Lemma parseEntries_childrenFrom entries : forall st st',
  incl entries all ->
  parseEntries host cfg entries st = Ok st' ->
  childrenFrom host cfg all st -> childrenFrom host cfg all st'.
Proof.
  induction entries as [|[key value] rest IH]; intros st st' Hincl H Hst;
    simpl in H.
  - now injection H as <-.
  - apply bind_Ok in H as (st1 & H1 & H2).
    apply (IH st1 st' (fun x Hx => Hincl x (or_intror Hx)) H2).
    apply processEntry_Ok in H1.
    destruct H1 as [[_ ->]|[(_ & _ & ->)|(pk & sub & Ha & Hsub & Hp)]];
      [exact Hst | exact Hst |].
    assert (Hchild : childOf host cfg all (key_targetKey pk) sub).
    { exists key, value, pk. repeat split; auto. apply Hincl. now left. }
    destruct Hst as [Hnext Hnested].
    apply place_Ok in Hp as [_ [(Ht & Ho & Hn)|(Ht & _ & Hn & Ho)]]; split.
    + now rewrite Hn.
    + rewrite Ho. simpl. intros k c Hin.
      apply assign_In in Hin as [(-> & -> & Hproto)|Hin]; auto.
    + rewrite Hn. intros n [= <-]. now rewrite <- Ht.
    + now rewrite Ho.
Qed.

(** Entries that are not accepted leave the children as they are. *)
Lemma parseEntries_no_accepted entries : forall st st',
  (forall key value, In (key, value) entries -> acceptedKey host cfg key = None) ->
  parseEntries host cfg entries st = Ok st' ->
  lv_nextExpression st' = lv_nextExpression st
  /\ lv_nestedExpressions st' = lv_nestedExpressions st.
Proof.
  induction entries as [|[key value] rest IH]; intros st st' Hnone H; simpl in H.
  - injection H as <-. auto.
  - apply bind_Ok in H as (st1 & H1 & H2).
    destruct (IH st1 st' (fun k v Hin => Hnone k v (or_intror Hin)) H2) as [Hn Ho].
    apply processEntry_Ok in H1.
    destruct H1 as [[_ ->]|[(_ & _ & ->)|(pk & sub & Ha & _)]]; auto.
    rewrite (Hnone key value (or_introl eq_refl)) in Ha. discriminate.
Qed.
End Children.

(** X6. A parsed expression has no children but those of the accepted
    entries of its mapping: [nextExpression] is the child parsed from the
    value of an accepted entry with an empty target key, and every property
    of [nestedExpressions] is the child parsed from the value of an accepted
    entry with that target key; no property is named by the empty string or
    by ["__proto__"]. *)
Theorem children_from_accepted_entries host cfg query ctx entries e :
  levelEntries query = Some entries ->
  _parseQuery host query ctx cfg = Ok e ->
  (forall n, nextExpression e = Some n -> childOf host cfg entries "" n)
  /\ (forall o k c,
        nestedExpressions e = Some o -> In (k, c) o ->
        k <> "" /\ k <> "__proto__" /\ childOf host cfg entries k c).
Proof.
  intros Hentries He.
  rewrite (_parseQuery_level host cfg query ctx _ Hentries) in He.
  apply bind_Ok in He as (st & Hst & Hfin).
  pose proof (parseEntries_expression host cfg _ _ _ Hst) as (_ & _ & _ & Hn0 & Ho0).
  assert (Hstart : nextExpression (lv_expression st) = None
                   /\ nestedExpressions (lv_expression st) = None).
  { rewrite Hn0, Ho0. unfold startLevel, levelExpression. simpl.
    now destruct query as [| | | | |[|? [|]]|]. }
  destruct Hstart as [Hn1 Ho1].
  apply (parseEntries_childrenFrom host cfg entries) in Hst;
    [ | apply incl_refl | split; [discriminate | intros k c []] ].
  destruct Hst as [Hnext Hnested].
  apply finishLevel_Ok in Hfin
    as (_ & _ & _ & _ & [(_ & _ & ->)|[(n' & Hs & _ & He1 & He2)
                                      |(o' & Hs & _ & He1 & He2)]]).
  - split; [intros n Hn | intros o k c Ho]; congruence.
  - split; [intros n Hn; apply Hnext | intros o k c Ho]; congruence.
  - split; [intros n Hn; congruence|].
    intros o k c Ho Hin. apply Hnested. rewrite Hs. simpl. congruence.
Qed.

Lemma children_from_accepted_entries_witness :
  levelEntries (VObject [("toString", VNull); ("movies=>all", VBool true)]) =
    Some [("toString", VNull); ("movies=>all", VBool true)]
  /\ childOf standardHost (configOf noOptions)
       [("toString", VNull); ("movies=>all", VBool true)] "all" (leaf "movies" false).
Proof.
  split; [reflexivity|].
  destruct (children_from_accepted_entries standardHost (configOf noOptions)
              (VObject [("toString", VNull); ("movies=>all", VBool true)])
              rootContext [("toString", VNull); ("movies=>all", VBool true)]
              (set_nestedExpressions [("all", leaf "movies" false)] (leaf "" false))
              eq_refl eq_refl) as [_ H].
  apply (H [("all", leaf "movies" false)] "all" (leaf "movies" false) eq_refl).
  now left.
Defined.

(** X7. A parsed mapping has no child at all, neither [nextExpression] nor
    [nestedExpressions], exactly when none of its entries is accepted: an
    empty mapping, or one whose entries are all parameters or skipped keys,
    gives an expression without children. *)
Theorem childless_iff_no_accepted_entry host cfg query ctx entries e :
  levelEntries query = Some entries ->
  _parseQuery host query ctx cfg = Ok e ->
  (nextExpression e = None /\ nestedExpressions e = None) <->
  (forall key value, In (key, value) entries -> acceptedKey host cfg key = None).
Proof.
  intros Hentries He.
  rewrite (_parseQuery_level host cfg query ctx _ Hentries) in He.
  apply bind_Ok in He as (st & Hst & Hfin).
  pose proof (parseEntries_expression host cfg _ _ _ Hst) as (_ & _ & _ & Hn0 & Ho0).
  assert (Hstart : nextExpression (lv_expression st) = None
                   /\ nestedExpressions (lv_expression st) = None).
  { rewrite Hn0, Ho0. unfold startLevel, levelExpression. simpl.
    now destruct query as [| | | | |[|? [|]]|]. }
  destruct Hstart as [Hn1 Ho1].
  apply finishLevel_Ok in Hfin as (_ & _ & _ & _ & Hfin).
  split.
  - intros [Hn Ho] key value Hin.
    destruct (acceptedKey host cfg key) as [pk|] eqn:Ha; [exfalso|reflexivity].
    apply in_split in Hin as (pre & post & ->).
    destruct (String.eqb_spec (key_targetKey pk) "") as [Ht|Ht].
    + destruct (parseEntries_empty_target host cfg _ _ _ _ _ _ _ Hst Ha Ht)
        as (sub & _ & Hs & _).
      destruct Hfin as [(_ & Hn' & _)|[(n & _ & _ & He1 & _)|(o & _ & Hn' & _)]];
        congruence.
    + destruct (parseEntries_nonempty_target host cfg _ _ _ _ _ _ _ Hst Ha Ht)
        as (sub & o & _ & Hs & _).
      destruct Hfin as [(Ho' & _)|[(n & _ & Ho' & _)|(o' & _ & _ & He1 & _)]];
        congruence.
  - intros Hnone.
    destruct (parseEntries_no_accepted host cfg _ _ _ Hnone Hst) as [Hn Ho].
    simpl in Hn, Ho.
    destruct Hfin as [(_ & _ & ->)|[(n & Hn' & _)|(o & Ho' & _)]];
      [auto | congruence | congruence].
Qed.

Lemma childless_iff_no_accepted_entry_witness :
  levelEntries (VObject [("()", VNumber 5); ("constructor", VNull)]) =
    Some [("()", VNumber 5); ("constructor", VNull)]
  /\ parseQuery standardHost (VObject [("()", VNumber 5); ("constructor", VNull)])
       noOptions = Ok (set_params (VNumber 5) (leaf "" false))
  /\ (forall key value,
        In (key, value) [("()", VNumber 5); ("constructor", VNull)] ->
        acceptedKey standardHost (configOf noOptions) key = None).
Proof.
  split; [reflexivity|]. split; [reflexivity|].
  apply (childless_iff_no_accepted_entry standardHost (configOf noOptions)
           (VObject [("()", VNumber 5); ("constructor", VNull)]) rootContext
           [("()", VNumber 5); ("constructor", VNull)]
           (set_params (VNumber 5) (leaf "" false)) eq_refl eq_refl).
  split; reflexivity.
Defined.

(** ** What the options are used for *)

Lemma processEntry_skips host cfg recur key value st :
  processEntry host cfg recur key value st =
  if String.eqb key "()" then Ok (mapLevel (set_params value) st)
  else
    let* pk := parseKey key in
    if skips host cfg (key_sourceKey pk) then Ok st
    else
      let* sub := recur (entryContext pk) cfg in
      place (key_targetKey pk) sub st.
Proof.
  unfold processEntry, skips.
  destruct (String.eqb key "()"); [reflexivity|].
  destruct (parseKey key) as [pk|]; [simpl|reflexivity].
  destruct (ignoreBuiltInKeys cfg && includes (builtInKeys host) (key_sourceKey pk));
    [reflexivity|].
  now destruct (testKey (key_sourceKey pk) (ignoreKeys cfg)
                && negb (testKey (key_sourceKey pk) (acceptKeys cfg))).
Qed.

Lemma arrayEntries_Forall (P : value -> Prop) items : forall index,
  Forall P items -> Forall (fun kv => P (snd kv)) (arrayEntries index items).
Proof.
  induction items as [|v rest IH]; intros index H; simpl.
  - constructor.
  - inversion H; subst. constructor; [assumption | now apply IH].
Qed.

Section Congruence.
Variables host host' : Host.
Variables cfg cfg' : Config.
Hypothesis same_skips : forall s, skips host cfg s = skips host' cfg' s.

Lemma parseEntries_congruence entries :
  Forall (fun kv => forall ctx,
            _parseQuery host (snd kv) ctx cfg = _parseQuery host' (snd kv) ctx cfg')
    entries ->
  forall st, parseEntries host cfg entries st = parseEntries host' cfg' entries st.
Proof.
  induction 1 as [|[key value] rest Hvalue _ IH]; intros st; simpl.
  - reflexivity.
  - rewrite !processEntry_skips. simpl in Hvalue.
    destruct (String.eqb key "()"); simpl; [apply IH|].
    destruct (parseKey key) as [pk|]; simpl; [|reflexivity].
    rewrite same_skips.
    destruct (skips host' cfg' (key_sourceKey pk)); simpl; [apply IH|].
    rewrite Hvalue.
    destruct (_parseQuery host' value (entryContext pk) cfg'); simpl;
      [|reflexivity].
    destruct (place (key_targetKey pk) a st); simpl; [apply IH | reflexivity].
Qed.

Lemma _parseQuery_congruence query :
  (forall ctx, _parseQuery host query ctx cfg = _parseQuery host' query ctx cfg')
  /\ (forall expression,
        parseBody host cfg expression query = parseBody host' cfg' expression query).
Proof.
  induction query as [| |b|n|s|items IH|entries IH] using value_nested_ind;
    try (split; [intros ctx; rewrite !_parseQuery_unfold|intros expression];
         reflexivity).
  - assert (Hbody : forall expression,
              parseBody host cfg expression (VArray items) =
              parseBody host' cfg' expression (VArray items)).
    { intros expression. unfold parseBody. simpl.
      rewrite parseEntries_congruence; [reflexivity|].
      apply (arrayEntries_Forall
               (fun v => forall ctx,
                  _parseQuery host v ctx cfg = _parseQuery host' v ctx cfg')).
      eapply Forall_impl; [|exact IH]. now intros v [Hv _]. }
    split; [|exact Hbody].
    intros ctx. rewrite !_parseQuery_unfold.
    destruct items as [|item [|]]; try reflexivity.
    apply Forall_inv in IH. apply IH.
  - assert (Hbody : forall expression,
              parseBody host cfg expression (VObject entries) =
              parseBody host' cfg' expression (VObject entries)).
    { intros expression. unfold parseBody. simpl.
      rewrite parseEntries_congruence; [reflexivity|].
      eapply Forall_impl; [|exact IH]. now intros kv [Hv _]. }
    split; [|exact Hbody].
    intros ctx. rewrite !_parseQuery_unfold. apply Hbody.
Qed.
End Congruence.

(** X8. The options and the engine matter only through the source keys they
    make the parser skip: two calls in which the tests of lines 98 and 102
    skip the same source keys return the same result, expression or error,
    on every query. *)
Theorem options_matter_through_skipped_keys host host' options options' query :
  (forall s, skips host (configOf options) s = skips host' (configOf options') s) ->
  parseQuery host query options = parseQuery host' query options'.
Proof.
  intros H. rewrite !parseQuery_eq. now apply _parseQuery_congruence.
Qed.

Lemma options_matter_through_skipped_keys_witness :
  parseQuery standardHost (VObject [("a", VNull); ("b", VBool true)])
    (mkOptions (Some (ManyMatchers [PString "a"; PString "a"])) None None) =
  parseQuery standardHost (VObject [("a", VNull); ("b", VBool true)])
    (mkOptions (Some (OneMatcher (PString "a"))) None None).
Proof.
  apply (options_matter_through_skipped_keys standardHost standardHost
           (mkOptions (Some (ManyMatchers [PString "a"; PString "a"])) None None)
           (mkOptions (Some (OneMatcher (PString "a"))) None None)
           (VObject [("a", VNull); ("b", VBool true)])).
  intros s. unfold skips. f_equal. f_equal.
  unfold testKey, configOf, toArray, ignoreKeys, opt_ignoreKeys, existsb.
  now destruct (String.eqb "a" s).
Defined.

(** X9. With [ignoreBuiltInKeys] set to [false] the result does not depend
    on the property names of the engine: [getBuiltInKeys] is not consulted. *)
Theorem engine_irrelevant_without_builtin_filter host host' options query :
  opt_ignoreBuiltInKeys options = Some false ->
  parseQuery host query options = parseQuery host' query options.
Proof.
  intros H. rewrite !parseQuery_eq. apply _parseQuery_congruence.
  intros s. unfold skips, configOf. simpl. now rewrite H.
Qed.

Lemma engine_irrelevant_without_builtin_filter_witness :
  parseQuery (mkHost [] [] []) (VObject [("toString", VBool true)])
    (mkOptions None None (Some false)) =
  Ok (set_nestedExpressions [("toString", leaf "toString" false)] (leaf "" false))
  /\ parseQuery standardHost (VObject [("toString", VBool true)])
       (mkOptions None None (Some false)) =
     Ok (set_nestedExpressions [("toString", leaf "toString" false)] (leaf "" false)).
Proof.
  split; [vm_compute; reflexivity|].
  eapply eq_trans.
  - exact (engine_irrelevant_without_builtin_filter standardHost (mkHost [] [] [])
             (mkOptions None None (Some false))
             (VObject [("toString", VBool true)]) eq_refl).
  - vm_compute; reflexivity.
Defined.

(** X10. [acceptKeys] only takes entries back from [ignoreKeys]: when
    [ignoreKeys] is empty or left out, the result is the same whatever
    [acceptKeys] is; in particular it does not bring back a built-in key. *)
Theorem acceptKeys_only_overrides_ignoreKeys host options accept query :
  toArray (opt_ignoreKeys options) = [] ->
  parseQuery host query options =
  parseQuery host query
    (mkOptions (opt_ignoreKeys options) accept (opt_ignoreBuiltInKeys options)).
Proof.
  intros H. rewrite !parseQuery_eq. apply _parseQuery_congruence.
  intros s. unfold skips, configOf. simpl. now rewrite H.
Qed.

Lemma acceptKeys_only_overrides_ignoreKeys_witness :
  toArray (opt_ignoreKeys noOptions) = []
  /\ parseQuery standardHost (VObject [("toString", VBool true); ("title", VBool true)])
       (mkOptions None (Some (OneMatcher (PString "toString"))) None) =
     Ok (set_nestedExpressions [("title", leaf "title" false)] (leaf "" false)).
Proof.
  split; [reflexivity|].
  eapply eq_trans.
  - symmetry.
    exact (acceptKeys_only_overrides_ignoreKeys standardHost noOptions
             (Some (OneMatcher (PString "toString")))
             (VObject [("toString", VBool true); ("title", VBool true)]) eq_refl).
  - vm_compute; reflexivity.
Defined.

(** ** The array of built-in keys, again *)

Lemma addKey_NoDup array key : NoDup array -> NoDup (addKey array key).
Proof.
  unfold addKey. intros H.
  destruct (String.eqb key "name" || String.eqb key "length") ; simpl; [exact H|].
  destruct (includes array key) eqn:Hi; simpl; [exact H|].
  apply NoDup_app; [exact H | constructor; [intros [] | constructor] |].
  intros x Hx [<-|[]]. apply includes_In in Hx. congruence.
Qed.

Lemma addKey_extends array key : exists added, addKey array key = array ++ added.
Proof.
  unfold addKey.
  destruct (negb _); [now exists [key] | exists []; now rewrite app_nil_r].
Qed.

Lemma fold_addKey_keeps names : forall array,
  NoDup array ->
  NoDup (fold_left addKey names array)
  /\ exists added, fold_left addKey names array = array ++ added.
Proof.
  induction names as [|key names IH]; intros array H; simpl.
  - split; [exact H | exists []; now rewrite app_nil_r].
  - destruct (IH (addKey array key) (addKey_NoDup array key H)) as [Hnd [added E]].
    split; [exact Hnd|].
    destruct (addKey_extends array key) as [added' E'].
    exists (added' ++ added). now rewrite E, E', app_assoc.
Qed.

Lemma _addKeys_keeps object : forall array,
  NoDup array ->
  NoDup (_addKeys array object)
  /\ exists added, _addKeys array object = array ++ added.
Proof.
  induction object as [|names prototype IH]; intros array H; simpl.
  - split; [exact H | exists []; now rewrite app_nil_r].
  - destruct (fold_addKey_keeps names array H) as [Hnd [added' E']].
    destruct (IH _ Hnd) as [Hnd' [added E]].
    split; [exact Hnd'|].
    exists (added' ++ added). now rewrite E, E', app_assoc.
Qed.

(** X11. [_addKeys] only appends to the array it is given, and never a name
    the array already holds: an array without duplicates stays so, with its
    elements in front and in their order.  The array of [getBuiltInKeys],
    built from the empty array, has no duplicates, although the three
    objects share most of their prototype chains. *)
Theorem _addKeys_appends_new_names host array object :
  NoDup array ->
  NoDup (_addKeys array object)
  /\ (exists added, _addKeys array object = array ++ added)
  /\ NoDup (builtInKeys host).
Proof.
  intros H. destruct (_addKeys_keeps object array H) as [H1 H2].
  split; [exact H1|]. split; [exact H2|].
  unfold builtInKeys.
  repeat (apply _addKeys_keeps). constructor.
Qed.

Lemma _addKeys_appends_new_names_witness :
  NoDup ["constructor"]
  /\ _addKeys ["constructor"] [["length"; "name"; "prototype"]; ["constructor"; "call"]]
     = ["constructor"; "prototype"; "call"]
  /\ NoDup (_addKeys ["constructor"]
              [["length"; "name"; "prototype"]; ["constructor"; "call"]]).
Proof.
  assert (H : NoDup ["constructor"]) by (constructor; [intros [] | constructor]).
  split; [exact H|]. split; [reflexivity|].
  exact (proj1 (_addKeys_appends_new_names standardHost ["constructor"]
                  [["length"; "name"; "prototype"]; ["constructor"; "call"]] H)).
Defined.

(** ** Errors at any depth *)

(** X12. An error ends the whole call: when a call of [_parseQuery] made
    while parsing a query fails, on the value of an accepted entry at any
    depth, [parseQuery] fails with that same error; no partial expression is
    returned. *)
Theorem first_error_aborts host options query v ctx' err :
  Visits host (configOf options) query rootContext v ctx' ->
  _parseQuery host v ctx' (configOf options) = Err err ->
  parseQuery host query options = Err err.
Proof. rewrite parseQuery_eq. apply visited_error. Qed.

Lemma first_error_aborts_witness :
  parseQuery standardHost
    (VObject [("movies", VObject [("a=>", VBool true); ("b=>", VBool true)])])
    noOptions = Err MultipleEmptyTargets.
Proof.
  apply (first_error_aborts standardHost noOptions
           (VObject [("movies", VObject [("a=>", VBool true); ("b=>", VBool true)])])
           (VObject [("a=>", VBool true); ("b=>", VBool true)])
           (mkContext (Some "movies") false)).
  - eapply (Visits_entry standardHost _ _ _ _ [] "movies" _ []);
      [reflexivity | reflexivity | reflexivity | vm_compute; reflexivity
      | apply Visits_here].
  - vm_compute; reflexivity.
Defined.



(** X14. [null], [false], a number or a string where a query is expected,
    alone or as the only element of an array, at any depth, makes
    [parseQuery] fail with "Invalid query found", and the error holds that
    value (the element, when it is in an array). *)
Theorem scalar_value_invalid host options query v q ctx' :
  scalar v = true ->
  q = v \/ q = VArray [v] ->
  Visits host (configOf options) query rootContext q ctx' ->
  parseQuery host query options = Err (InvalidQueryShape v).
Proof.
  intros Hv Hq H. rewrite parseQuery_eq.
  apply (visited_error _ _ _ _ _ _ _ H).
  destruct v as [| |[|] |n|s|items|entries]; try discriminate;
    destruct Hq as [->| ->]; reflexivity.
Qed.

Lemma scalar_value_invalid_witness :
  scalar (VString "yes") = true
  /\ parseQuery standardHost
       (VObject [("movies", VArray [VObject [("title", VArray [VString "yes"])]])])
       noOptions = Err (InvalidQueryShape (VString "yes")).
Proof.
  split; [reflexivity|].
  apply (scalar_value_invalid standardHost noOptions
           (VObject [("movies", VArray [VObject [("title", VArray [VString "yes"])]])])
           (VString "yes") (VArray [VString "yes"])
           (mkContext (Some "title") false) eq_refl (or_intror eq_refl)).
  eapply (Visits_entry standardHost _ _ _ _ [] "movies" _ []);
    [reflexivity | reflexivity | reflexivity | vm_compute; reflexivity |].
  eapply (Visits_entry standardHost _ _ _ _ [] "title" _ []);
    [reflexivity | reflexivity | reflexivity | vm_compute; reflexivity
    | apply Visits_here].
Defined.

(** X15. A query that parses is made of queries that parse: the value of
    every accepted entry, at any depth and wherever the entry stands in its
    mapping, is parsed without an error by [_parseQuery] in the context of
    its key. *)
Theorem success_is_hereditary host options query v e :
  SubQuery host (configOf options) query v ->
  parseQuery host query options = Ok e ->
  exists ctx' e', _parseQuery host v ctx' (configOf options) = Ok e'.
Proof.
  intros Hsub He. rewrite parseQuery_eq in He.
  exact (subquery_parsed _ _ _ _ Hsub _ _ He).
Qed.

Lemma success_is_hereditary_witness :
  exists ctx' e',
    _parseQuery standardHost (VArray [VBool true]) ctx' (configOf noOptions) = Ok e'.
Proof.
  apply (success_is_hereditary standardHost noOptions
           (VObject [("title", VBool true); ("actors", VArray [VBool true])])
           (VArray [VBool true])
           (set_nestedExpressions
              [("title", leaf "title" false);
               ("actors", set_useCollectionElements (leaf "actors" false))]
              (leaf "" false))).
  - eapply (SubQuery_entry standardHost _ _ _ "actors" (VArray [VBool true]));
      [reflexivity | right; left; reflexivity | vm_compute; reflexivity
      | apply SubQuery_here].
  - vm_compute; reflexivity.
Defined.
